(** * bulk-dalle: the resumable icon-generation batch of [script.py]

    A shallow embedding of the script: the Python string operations the
    slug derivation uses, the sitemap filter, the image adapter with its
    catch-all handler, the checkpoint file and the orchestration loop of
    [main], followed by the properties of the specification. *)

From Stdlib Require Import Ascii String.
From stdpp Require Import base decidable option list strings gmap pretty.

(** ** Python string operations *)

Module PyStr.

(** [sub in s] on two strings. *)
Fixpoint str_in (sub s : string) : bool :=
  String.prefix sub s ||
  match s with
  | EmptyString => false
  | String _ s' => str_in sub s'
  end.

(** [s.split(sep)] for a non-empty [sep]: a left-to-right scan that cuts at
    every match and resumes after it, so matches never overlap.  [skip]
    counts the characters of the current match still to be dropped; the head
    of the result is the piece under construction.  (An empty separator
    raises [ValueError] in Python; the script only passes a constant.) *)
Fixpoint split_go (sep : string) (skip : nat) (s : string) : list string :=
  match s with
  | EmptyString => [EmptyString]
  | String c s' =>
      match skip with
      | S k => split_go sep k s'
      | O =>
          if String.prefix sep s
          then EmptyString :: split_go sep (String.length sep - 1) s'
          else match split_go sep 0 s' with
               | p :: ps => String c p :: ps
               | [] => [String c EmptyString]
               end
      end
  end.

Definition split (sep s : string) : list string := split_go sep 0 s.

(** [l[-1]] on the result of [split], which is never empty. *)
Definition last_piece (l : list string) : string := default EmptyString (last l).

(** [c in chars] for a character. *)
Fixpoint char_in (c : ascii) (chars : string) : bool :=
  match chars with
  | EmptyString => false
  | String d chars' => Ascii.eqb c d || char_in c chars'
  end.

(** [s.lstrip(chars)], [s.rstrip(chars)] and [s.strip(chars)]. *)
Fixpoint lstrip (chars s : string) : string :=
  match s with
  | EmptyString => EmptyString
  | String c s' => if char_in c chars then lstrip chars s' else s
  end.

Fixpoint rstrip (chars s : string) : string :=
  match s with
  | EmptyString => EmptyString
  | String c s' =>
      match rstrip chars s' with
      | EmptyString => if char_in c chars then EmptyString else String c EmptyString
      | r => String c r
      end
  end.

Definition strip (chars s : string) : string := rstrip chars (lstrip chars s).

(** [s.replace(old, new)] for a non-empty [old]: the same non-overlapping
    left-to-right scan as [split]. *)
Fixpoint replace_go (old new : string) (skip : nat) (s : string) : string :=
  match s with
  | EmptyString => EmptyString
  | String c s' =>
      match skip with
      | S k => replace_go old new k s'
      | O =>
          if String.prefix old s
          then new +:+ replace_go old new (String.length old - 1) s'
          else String c (replace_go old new 0 s')
      end
  end.

Definition replace (old new s : string) : string := replace_go old new 0 s.

(** Character-wise substitution, the reading of [replace] on one-character
    arguments. *)
Fixpoint subst_char (a b : ascii) (s : string) : string :=
  match s with
  | EmptyString => EmptyString
  | String c s' => String (if Ascii.eqb c a then b else c) (subst_char a b s')
  end.

End PyStr.

(** ** Constants of the script *)

Definition SITEMAP_URL : string := "https://www.bitcoin.com/sitemap-0.xml".
Definition SAVE_STATE_FILE : string := "generation_state.json".
Definition OUTPUT_DIR : string := "generated_icons".
Definition EXCLUDED_LANGS : list string :=
  ["/de/"; "/es/"; "/fr/"; "/it/"; "/ru/"; "/zh/"; "/ja/"].
Definition REQUIRED_PATH : string := "/get-started/".

(** ** Slug derivation *)

Definition get_clean_slug (url : string) : string :=
  let slug := PyStr.strip "/" (PyStr.last_piece (PyStr.split "/get-started/" url)) in
  PyStr.replace "-" " " slug.


(** ** Exceptions

    The exception classes the script can meet, with the part of Python's
    class hierarchy between them.  Every class listed derives from
    [Exception]. *)

Inductive exn_class :=
| Exception | OSError | FileNotFoundError | PermissionError
| ValueError | JSONDecodeError | TypeError | IndexError
| SyntaxError | ParseError
| RequestException | ConnectionError | HTTPError
| OpenAIError | UnidentifiedImageError.

Global Instance exn_class_eq_dec : EqDecision exn_class.
Proof. solve_decision. Defined.

Definition base_class (c : exn_class) : option exn_class :=
  match c with
  | Exception => None
  | OSError | ValueError | TypeError | IndexError | SyntaxError | OpenAIError =>
      Some Exception
  | FileNotFoundError | PermissionError | RequestException
  | UnidentifiedImageError => Some OSError
  | JSONDecodeError => Some ValueError
  | ParseError => Some SyntaxError
  | ConnectionError | HTTPError => Some RequestException
  end.

Fixpoint issubclass_fuel (n : nat) (c d : exn_class) : bool :=
  bool_decide (c = d) ||
  match n, base_class c with
  | S n', Some b => issubclass_fuel n' b d
  | _, _ => false
  end.

(** [issubclass(c, d)]; the hierarchy above has depth three. *)
Definition issubclass (c d : exn_class) : bool := issubclass_fuel 3 c d.

(** An exception instance: its class and what [str(e)] returns. *)
Record exn := mkExn { exn_cls : exn_class; exn_str : string }.

Definition isinstance (e : exn) (d : exn_class) : bool := issubclass (exn_cls e) d.

(** The outcome of a call into a library or the outside world. *)
Inductive outcome (A : Type) :=
| Ok (a : A)
| Fail (e : exn).
Arguments Ok {A} a.
Arguments Fail {A} e.

(** ** Data *)

(** One entry of [failed_slugs]: the dict [{'slug': ..., 'error': ...}]. *)
Record failure := mkFailure { slug : string; error : string }.

(** The checkpoint dict [{'processed_slugs': [...], 'failed_slugs': [...]}]. *)
Record State := mkState {
  processed_slugs : list string;
  failed_slugs : list failure
}.

Global Instance failure_eq_dec : EqDecision failure.
Proof. solve_decision. Defined.
Global Instance State_eq_dec : EqDecision State.
Proof. solve_decision. Defined.

Definition fresh_state : State := mkState [] [].

(** What sits at [SAVE_STATE_FILE], classified by what [open] and
    [json.load] do on it: no file, a file on which the decoder raises (with
    the decoder's message), or a checkpoint as [save_state] writes it. *)
Inductive file :=
| Absent
| Garbled (why : string)
| Stored (st : State).

(** A [requests] response. *)
Record response := mkResponse {
  resp_url : string;
  status_code : nat;
  reason : string;
  content : string
}.

(** A decoded image: its size and pixel data. *)
Record image := mkImage { width : nat; height : nat; pixels : string }.

Inductive level := INFO | ERROR.

(** Observable actions, in the order the script performs them.  [Invoke] and
    [Done] mark entry to and return from [generate_icon]. *)
Inductive event :=
| Log (lvl : level) (msg : string)
| Print (msg : string)
| Sleep (secs : nat)
| Saved (st : State)
| Invoke (s : string)
| Done (s : string) (ok : bool) (res : string).

Global Instance level_eq_dec : EqDecision level.
Proof. solve_decision. Defined.
Global Instance event_eq_dec : EqDecision event.
Proof. solve_decision. Defined.

(** Everything outside the interpreter that the script reads or changes. *)
Record World := mkWorld {
  ckpt : file;
  icons : gmap string image;
  clock : nat;
  trace : list event
}.

(** The behaviour of the libraries and remote services during one run.  The
    [nat] argument is the world's [clock], so that the same request may be
    answered differently at different times. *)
Record Env := mkEnv {
  os_makedirs : option exn;
  requests_get : nat -> string -> outcome response;
  ET_locs : string -> outcome (list (option string));
  Image_create : nat -> string -> outcome string;
  Image_open : string -> outcome image;
  Image_lanczos : image -> nat -> nat -> outcome string;
  Image_save : nat -> string -> option exn
}.

(** ** The monad of the script: world passing with exceptions *)

Inductive result (A : Type) :=
| Ret (a : A) (w : World)
| Raise (e : exn) (w : World).
Arguments Ret {A} a w.
Arguments Raise {A} e w.

Definition M (A : Type) : Type := World -> result A.

Global Instance M_ret : MRet M := fun A a w => Ret a w.
Global Instance M_bind : MBind M := fun A B f m w =>
  match m w with
  | Ret a w' => f a w'
  | Raise e w' => Raise e w'
  end.

Definition raise {A} (e : exn) : M A := fun w => Raise e w.

Definition lift {A} (o : outcome A) : M A :=
  match o with
  | Ok a => mret a
  | Fail e => raise e
  end.

(** [try: body except cls as e: handler e]. *)
Definition try_except {A} (body : M A) (cls : exn_class) (handler : exn -> M A) : M A :=
  fun w =>
    match body w with
    | Ret a w' => Ret a w'
    | Raise e w' => if isinstance e cls then handler e w' else Raise e w'
    end.

Definition emit (ev : event) : M unit :=
  fun w => Ret tt (mkWorld (ckpt w) (icons w) (clock w) (trace w ++ [ev])).

Definition tick (w : World) : World :=
  mkWorld (ckpt w) (icons w) (S (clock w)) (trace w).

(** A call to a remote service: answered according to the clock, which it
    advances. *)
Definition call {A} (f : nat -> outcome A) : M A := fun w =>
  match f (clock w) with
  | Ok a => Ret a (tick w)
  | Fail e => Raise e (tick w)
  end.

Definition logging_info (msg : string) : M unit := emit (Log INFO msg).
Definition logging_error (msg : string) : M unit := emit (Log ERROR msg).
Definition print (msg : string) : M unit := emit (Print msg).
Definition time_sleep (secs : nat) : M unit := emit (Sleep secs).

(** ** Checkpoint store *)

Definition open_and_json_load : M State := fun w =>
  match ckpt w with
  | Absent =>
      Raise (mkExn FileNotFoundError
        "[Errno 2] No such file or directory: 'generation_state.json'") w
  | Garbled why => Raise (mkExn JSONDecodeError why) w
  | Stored st => Ret st w
  end.

Definition load_save_state : M State :=
  try_except open_and_json_load FileNotFoundError (fun _ => mret fresh_state).

Definition save_state (state : State) : M unit := fun w =>
  Ret tt (mkWorld (Stored state) (icons w) (clock w) (trace w ++ [Saved state])).

(** ** Catalog fetcher *)

(** [response.raise_for_status()]. *)
Definition raise_for_status (r : response) : M unit :=
  let code := status_code r in
  if bool_decide (400 <= code < 500) then
    raise (mkExn HTTPError
      (pretty code +:+ " Client Error: " +:+ reason r +:+ " for url: " +:+ resp_url r))
  else if bool_decide (500 <= code < 600) then
    raise (mkExn HTTPError
      (pretty code +:+ " Server Error: " +:+ reason r +:+ " for url: " +:+ resp_url r))
  else mret tt.

(** [sub in t] where [t] is the [.text] of an element: [None] for an element
    without text, on which [in] raises. *)
Definition in_text (sub : string) (t : option string) : outcome bool :=
  match t with
  | Some s => Ok (PyStr.str_in sub s)
  | None => Fail (mkExn TypeError "argument of type 'NoneType' is not iterable")
  end.

(** [any(lang in url_text for lang in EXCLUDED_LANGS)]. *)
Fixpoint any_lang_in (langs : list string) (t : option string) : outcome bool :=
  match langs with
  | [] => Ok false
  | lang :: langs' =>
      match in_text lang t with
      | Ok true => Ok true
      | Ok false => any_lang_in langs' t
      | Fail e => Fail e
      end
  end.

(** The condition of line 71, with the short circuit of [and]. *)
Definition wanted (t : option string) : outcome bool :=
  match in_text REQUIRED_PATH t with
  | Ok true =>
      match any_lang_in EXCLUDED_LANGS t with
      | Ok b => Ok (negb b)
      | Fail e => Fail e
      end
  | Ok false => Ok false
  | Fail e => Fail e
  end.

(** The loop over the [loc] elements, [urls] being the list built so far. *)
Fixpoint collect_urls (locs : list (option string)) (urls : list string)
  : outcome (list string) :=
  match locs with
  | [] => Ok urls
  | url_text :: locs' =>
      match wanted url_text with
      | Ok true => collect_urls locs' (urls ++ [default EmptyString url_text])
      | Ok false => collect_urls locs' urls
      | Fail e => Fail e
      end
  end.

Definition fetch_sitemap_urls (env : Env) : M (list string) :=
  try_except
    (response ← call (fun now => requests_get env now SITEMAP_URL);
     raise_for_status response;;
     root ← lift (ET_locs env (content response));
     lift (collect_urls root []))
    Exception
    (fun e =>
       logging_error ("Error fetching sitemap: " +:+ exn_str e);;
       mret []).

(** ** Image generator adapter *)

Definition prompt_for (slug : string) : string :=
  "Create a 3D minimalist icon design featuring vibrant, floating tokens and bitcoin coins,representing digital finance and cryptocurrency. Include a dynamic composition of colorful elements. Subject should relate to '"
  +:+ slug +:+
  "'. The icon should have a clean, modern style suitable for UI design.".

(** [image.resize((w, h), Image.Resampling.LANCZOS)]. *)
Definition resize (env : Env) (img : image) (w h : nat) : outcome image :=
  match Image_lanczos env img w h with
  | Ok px => Ok (mkImage w h px)
  | Fail e => Fail e
  end.

(** [os.path.join(a, b)] on POSIX paths. *)
Definition path_join (a b : string) : string :=
  if String.prefix "/" b then b
  else if bool_decide (a = EmptyString) then b
  else if PyStr.str_in "/" (String.substring (String.length a - 1) 1 a) then a +:+ b
  else a +:+ "/" +:+ b.

(** [image.save(filepath, "PNG")]. *)
Definition image_save (env : Env) (img : image) (filepath : string) : M unit := fun w =>
  match Image_save env (clock w) filepath with
  | None => Ret tt (mkWorld (ckpt w) (<[filepath := img]> (icons w)) (S (clock w)) (trace w))
  | Some e => Raise e (tick w)
  end.

Definition icon_path (slug : string) : string :=
  let filename := PyStr.replace " " "_" slug +:+ "_icon.png" in
  path_join OUTPUT_DIR filename.

Definition generate_icon (env : Env) (slug : string) : M (bool * string) :=
  emit (Invoke slug);;
  try_except
    (let prompt := prompt_for slug in
     image_url ← call (fun now => Image_create env now prompt);
     image_response ← call (fun now => requests_get env now image_url);
     image ← lift (Image_open env (content image_response));
     image ← lift (resize env image 256 256);
     let filepath := icon_path slug in
     image_save env image filepath;;
     emit (Done slug true filepath);;
     mret (true, filepath))
    Exception
    (fun e =>
       logging_error ("Error generating icon for " +:+ slug +:+ ": " +:+ exn_str e);;
       emit (Done slug false (exn_str e));;
       mret (false, exn_str e)).

(** ** Batch orchestrator *)

(** The body of the [for] loop of [main]. *)
Definition process_url (env : Env) (url : string) (state : State) : M State :=
  let slug := get_clean_slug url in
  if bool_decide (slug ∈ processed_slugs state) then
    logging_info ("Skipping " +:+ slug +:+ " - already processed");;
    mret state
  else
    logging_info ("Processing: " +:+ slug);;
    print ("Generating icon for: " +:+ slug);;
    sr ← generate_icon env slug;
    let '(success, result) := sr in
    state' ←
      (if success : bool then
         logging_info ("Successfully generated icon: " +:+ result);;
         print ("Success: " +:+ result);;
         mret (mkState (processed_slugs state ++ [slug]) (failed_slugs state))
       else
         logging_error ("Failed to generate icon for " +:+ slug +:+ ": " +:+ result);;
         print ("Failed: " +:+ result);;
         mret (mkState (processed_slugs state)
                       (failed_slugs state ++ [mkFailure slug result])));
    save_state state';;
    time_sleep 2;;
    mret state'.

Fixpoint process_urls (env : Env) (urls : list string) (state : State) : M State :=
  match urls with
  | [] => mret state
  | url :: urls' =>
      state' ← process_url env url state;
      process_urls env urls' state'
  end.

Definition makedirs (env : Env) : M unit :=
  match os_makedirs env with
  | None => mret tt
  | Some e => raise e
  end.

Fixpoint print_failures (fails : list failure) : M unit :=
  match fails with
  | [] => mret tt
  | fail :: fails' =>
      print ("- " +:+ slug fail +:+ ": " +:+ error fail);;
      print_failures fails'
  end.

(** The end of [main], after the loop. *)
Definition report (state : State) : M unit :=
  print "Icon generation completed!";;
  logging_info "Icon generation completed!";;
  match failed_slugs state with
  | [] => mret tt
  | fails =>
      print (String "010" "Failed generations:");;
      print_failures fails
  end.

(** [main], up to the loop: the checkpoint is loaded before the sitemap is
    fetched. *)
Definition startup (env : Env) : M (State * list string) :=
  makedirs env;;
  state ← load_save_state;
  urls ← fetch_sitemap_urls env;
  logging_info ("Found " +:+ pretty (length urls) +:+ " URLs to process");;
  mret (state, urls).

Definition main (env : Env) : M unit :=
  su ← startup env;
  state ← process_urls env su.2 su.1;
  report state.

(** [main] when the process is terminated from outside once [n] candidates
    have been dealt with and before the next one begins. *)
Definition main_killed (n : nat) (env : Env) : M State :=
  su ← startup env;
  process_urls env (take n su.2) su.1.

(** The world a run leaves behind, whether it returned or raised. *)
Definition world_of {A} (r : result A) : World :=
  match r with
  | Ret _ w => w
  | Raise _ w => w
  end.

(** One run: a complete one, or one killed after [n] candidates. *)
Definition run (r : Env * option nat) (w : World) : World :=
  match r.2 with
  | None => world_of (main r.1 w)
  | Some n => world_of (main_killed n r.1 w)
  end.

(** Successive runs of the script, each in its own environment. *)
Definition runs (rs : list (Env * option nat)) (w : World) : World :=
  foldl (fun w r => run r w) w rs.

(** ** Observations on worlds and traces *)

(** Slugs on which [generate_icon] was entered, in order. *)
Definition invoked (tr : list event) : list string :=
  omap (fun ev => match ev with Invoke s => Some s | _ => None end) tr.

(** Slugs for which [generate_icon] returned [True], in order. *)
Definition succeeded (tr : list event) : list string :=
  omap (fun ev => match ev with Done s true _ => Some s | _ => None end) tr.

(** The failures [generate_icon] returned, in order. *)
Definition failures (tr : list event) : list failure :=
  omap (fun ev => match ev with
                  | Done s false res => Some (mkFailure s res)
                  | _ => None
                  end) tr.

(** The delays, the checkpoint writes and the lines on standard output. *)
Definition sleeps (tr : list event) : list nat :=
  omap (fun ev => match ev with Sleep n => Some n | _ => None end) tr.

Definition saves (tr : list event) : list State :=
  omap (fun ev => match ev with Saved st => Some st | _ => None end) tr.

Definition printed (tr : list event) : list string :=
  omap (fun ev => match ev with Print m => Some m | _ => None end) tr.

(** The processed slugs recorded in the checkpoint file. *)
Definition disk_processed (w : World) : list string :=
  match ckpt w with
  | Stored st => processed_slugs st
  | _ => []
  end.

(** The filter of the catalog in the words of the specification: the entry
    contains the required marker and none of the excluded ones. *)
Definition is_candidate (u : string) : bool :=
  PyStr.str_in REQUIRED_PATH u &&
  forallb (fun lang => negb (PyStr.str_in lang u)) EXCLUDED_LANGS.

(** The same on a catalog entry that may have no text: an entry without text
    contains no marker. *)
Definition is_candidate_entry (t : option string) : bool :=
  match t with
  | Some u => is_candidate u
  | None => false
  end.

(** The subsequence of the catalog entries that pass the filter, in the
    order of the catalog. *)
Definition candidates_of (locs : list (option string)) : list string :=
  omap (fun t => if is_candidate_entry t then t else None) locs.

(** The ways in which retrieving and reading the sitemap can fail at time
    [now]: the request fails, the server answers with an error status, the
    document does not parse, or a [loc] element has no text. *)
Inductive fetch_fails (env : Env) (now : nat) : Prop :=
| request_fails e :
    requests_get env now SITEMAP_URL = Fail e -> fetch_fails env now
| status_fails resp :
    requests_get env now SITEMAP_URL = Ok resp ->
    400 <= status_code resp < 600 -> fetch_fails env now
| parse_fails resp e :
    requests_get env now SITEMAP_URL = Ok resp ->
    ~ 400 <= status_code resp < 600 ->
    ET_locs env (content resp) = Fail e -> fetch_fails env now
| text_missing resp locs :
    requests_get env now SITEMAP_URL = Ok resp ->
    ~ 400 <= status_code resp < 600 ->
    ET_locs env (content resp) = Ok locs ->
    None ∈ locs -> fetch_fails env now.

(** The lines of the failure summary for a list of failures. *)
Definition summary_lines (fails : list failure) : list string :=
  match fails with
  | [] => []
  | _ => String "010" "Failed generations:"
         :: map (fun fail => "- " +:+ slug fail +:+ ": " +:+ error fail) fails
  end.

(** The first sub-step of the adapter that fails at time [now], and the
    exception it raises: the provider call, the download, the decoding, the
    resizing or the saving. *)
Inductive substep_fails (env : Env) (now : nat) (slug : string) : exn -> Prop :=
| provider_fails e :
    Image_create env now (prompt_for slug) = Fail e ->
    substep_fails env now slug e
| download_fails url e :
    Image_create env now (prompt_for slug) = Ok url ->
    requests_get env (S now) url = Fail e ->
    substep_fails env now slug e
| decode_fails url resp e :
    Image_create env now (prompt_for slug) = Ok url ->
    requests_get env (S now) url = Ok resp ->
    Image_open env (content resp) = Fail e ->
    substep_fails env now slug e
| resize_fails url resp img e :
    Image_create env now (prompt_for slug) = Ok url ->
    requests_get env (S now) url = Ok resp ->
    Image_open env (content resp) = Ok img ->
    Image_lanczos env img 256 256 = Fail e ->
    substep_fails env now slug e
| save_fails url resp img px e :
    Image_create env now (prompt_for slug) = Ok url ->
    requests_get env (S now) url = Ok resp ->
    Image_open env (content resp) = Ok img ->
    Image_lanczos env img 256 256 = Ok px ->
    Image_save env (S (S now)) (icon_path slug) = Some e ->
    substep_fails env now slug e.

(** Every sub-step of the adapter succeeds at time [now]. *)
Definition substeps_succeed (env : Env) (now : nat) (slug : string) : Prop :=
  exists url resp img px,
    Image_create env now (prompt_for slug) = Ok url /\
    requests_get env (S now) url = Ok resp /\
    Image_open env (content resp) = Ok img /\
    Image_lanczos env img 256 256 = Ok px /\
    Image_save env (S (S now)) (icon_path slug) = None.

(** The log line of a skipped candidate. *)
Definition skip_line (slug : string) : event :=
  Log INFO ("Skipping " +:+ slug +:+ " - already processed").

(** The in-memory state [st] is what a fresh process would load from [w]. *)
Definition synced (st : State) (w : World) : Prop :=
  ckpt w = Stored st \/ (ckpt w = Absent /\ st = fresh_state).

(** How a stretch [seg] of the trace accounts for the change from state
    [st] in world [w] to state [st'] in world [w']. *)
Definition accounts (st : State) (w : World) (st' : State) (w' : World)
    (seg : list event) : Prop :=
  trace w' = trace w ++ seg /\
  processed_slugs st' = processed_slugs st ++ succeeded seg /\
  failed_slugs st' = failed_slugs st ++ failures seg /\
  (forall S, S ∈ invoked seg -> S ∉ processed_slugs st) /\
  (forall S, S ∈ succeeded seg -> S ∈ invoked seg) /\
  (forall f, f ∈ failures seg -> slug f ∈ invoked seg) /\
  NoDup (succeeded seg) /\
  (synced st w -> synced st' w') /\
  (saves seg = [] -> ckpt w' = ckpt w) /\
  sleeps seg = replicate (length (invoked seg)) 2.

(** How a stretch [seg] of the trace accounts for the change of the
    checkpoint file from world [w] to world [w'], over one or more runs. *)
Definition progress (w w' : World) (seg : list event) : Prop :=
  trace w' = trace w ++ seg /\
  disk_processed w' = disk_processed w ++ succeeded seg /\
  (forall S, S ∈ invoked seg -> S ∉ disk_processed w) /\
  (forall S, S ∈ succeeded seg -> S ∈ invoked seg) /\
  NoDup (succeeded seg).

(** The entries of [failed_slugs] recorded for the slug [S]. *)
Definition failures_of (S : string) (fails : list failure) : list failure :=
  filter (fun f => slug f = S) fails.

(** ** Sample worlds and environments *)

Definition empty_world : World := mkWorld Absent ∅ 0 [].

(** A sitemap of four entries, two of which qualify; the provider refuses the
    second request it gets. *)
Definition sample_env : Env := {|
  os_makedirs := None;
  requests_get := fun now url =>
    if bool_decide (url = SITEMAP_URL)
    then Ok (mkResponse url 200 "OK" "<urlset>...</urlset>")
    else Ok (mkResponse url 200 "OK" "PNG...");
  ET_locs := fun _ =>
    Ok [Some "https://x/get-started/Some-Thing/";
        Some "https://x/de/get-started/a/";
        Some "https://x/get-started/b-c/";
        Some "https://x/about/"];
  Image_create := fun now _ =>
    if bool_decide (now = 4)
    then Fail (mkExn OpenAIError "content policy violation")
    else Ok "https://img.example/1.png";
  Image_open := fun _ => Ok (mkImage 1024 1024 "raw");
  Image_lanczos := fun _ _ _ => Ok "small";
  Image_save := fun _ _ => None
|}.

(** The same services behind a sitemap one of whose [loc] elements is empty. *)
Definition empty_loc_env : Env := {|
  os_makedirs := None;
  requests_get := requests_get sample_env;
  ET_locs := fun _ => Ok [None; Some "https://x/get-started/a/"];
  Image_create := Image_create sample_env;
  Image_open := Image_open sample_env;
  Image_lanczos := Image_lanczos sample_env;
  Image_save := Image_save sample_env
|}.

(** The same services when the sitemap cannot be retrieved. *)
Definition offline_env : Env := {|
  os_makedirs := None;
  requests_get := fun _ _ => Fail (mkExn ConnectionError "Connection refused");
  ET_locs := ET_locs sample_env;
  Image_create := Image_create sample_env;
  Image_open := Image_open sample_env;
  Image_lanczos := Image_lanczos sample_env;
  Image_save := Image_save sample_env
|}.

(** A checkpoint file cut short in the middle of a write. *)
Definition corrupt_world : World :=
  mkWorld (Garbled "Expecting value: line 1 column 1 (char 0)") ∅ 0 [].

(** A checkpoint left by an earlier run: one success, one failure. *)
Definition resumed_state : State :=
  mkState ["Some Thing"] [mkFailure "b c" "content policy violation"].

Definition resumed_world : World := mkWorld (Stored resumed_state) ∅ 0 [].

(** * Properties *)

(** ** Facts about the string operations *)

Section PyStrFacts.
Import PyStr.

Lemma append_nil_l (a : string) : EmptyString +:+ a = a.
Proof. reflexivity. Qed.

Lemma append_cons (x : ascii) (a b : string) :
  String x a +:+ b = String x (a +:+ b).
Proof. reflexivity. Qed.

Lemma append_nil_r (a : string) : a +:+ EmptyString = a.
Proof.
  induction a as [|x a IH]; [done|]. by rewrite append_cons, IH.
Qed.

Lemma append_assoc (a b c : string) : (a +:+ b) +:+ c = a +:+ b +:+ c.
Proof.
  induction a as [|x a IH]; [done|]. by rewrite !append_cons, IH.
Qed.

Lemma length_append (a b : string) :
  String.length (a +:+ b) = String.length a + String.length b.
Proof.
  induction a as [|x a IH]; [done|]. rewrite append_cons. simpl. by rewrite IH.
Qed.

Lemma prefix_append (a r : string) : String.prefix a (a +:+ r) = true.
Proof.
  induction a as [|c a IH]; [by destruct r|].
  rewrite append_cons. simpl. by destruct (ascii_dec c c).
Qed.

(** A match that fits inside [s] is a match in [s] alone. *)
Lemma prefix_within (a s y : string) :
  String.prefix a (s +:+ y) = true ->
  String.length a <= String.length s ->
  String.prefix a s = true.
Proof.
  revert a. induction s as [|c s IH]; intros [|d a];
    rewrite ?append_nil_l, ?append_cons; simpl; try done.
  - intros _ Hlen. lia.
  - destruct (ascii_dec d c); [|done]. intros H Hlen. apply IH; [done | lia].
Qed.

Lemma split_go_not_nil (sep : string) (k : nat) (s : string) :
  split_go sep k s ≠ [].
Proof.
  revert k. induction s as [|c s IH]; intros k; cbn [split_go]; [done|].
  destruct k as [|k]; [|apply IH].
  destruct (String.prefix sep (String c s)); [done|].
  destruct (split_go sep 0 s); done.
Qed.

(** Without an occurrence of the separator, [split] returns the string. *)
Lemma split_go_no_match (sep s : string) :
  str_in sep s = false -> split_go sep 0 s = [s].
Proof.
  induction s as [|c s IH]; [done|].
  cbn [str_in split_go]. intros [Hp Hs]%orb_false_iff.
  rewrite Hp, (IH Hs). done.
Qed.

(** The characters of a match are passed over. *)
Lemma split_go_skip (sep q t : string) :
  split_go sep (String.length q) (q +:+ t) = split_go sep 0 t.
Proof.
  induction q as [|c q IH]; [done|]. rewrite append_cons. simpl. apply IH.
Qed.

(** What precedes the first occurrence of the separator stays in the first
    piece. *)
Lemma split_go_before (sep u p y h : string) (tl : list string) :
  String.length sep <= S (String.length u) ->
  str_in sep (p +:+ u) = false ->
  split_go sep 0 (u +:+ y) = h :: tl ->
  split_go sep 0 (p +:+ u +:+ y) = (p +:+ h) :: tl.
Proof.
  intros Hlen Hin Hsplit. induction p as [|c p IH]; [done|].
  revert Hin. rewrite !append_cons. cbn [str_in split_go].
  intros [Hp Hs]%orb_false_iff.
  destruct (String.prefix sep (String c (p +:+ u +:+ y))) eqn:E.
  - assert (Heq : String c (p +:+ u +:+ y) = String c (p +:+ u) +:+ y)
      by (by rewrite append_cons, append_assoc).
    rewrite Heq in E.
    apply (prefix_within sep (String c (p +:+ u)) y) in E; [congruence|].
    simpl. rewrite length_append. lia.
  - rewrite (IH Hs). done.
Qed.

Lemma replace_one_char (a b : ascii) (s : string) :
  replace (String a EmptyString) (String b EmptyString) s = subst_char a b s.
Proof.
  unfold replace. induction s as [|c s IH]; [done|].
  cbn [replace_go subst_char String.prefix].
  destruct (ascii_dec a c) as [->|Hne].
  - rewrite Ascii.eqb_refl.
    assert (Hp : String.prefix EmptyString s = true) by (by destruct s).
    rewrite Hp. change (String.length (String c EmptyString) - 1) with 0.
    by rewrite IH.
  - rewrite IH. apply Ascii.eqb_neq in Hne. rewrite Ascii.eqb_sym in Hne.
    by rewrite Hne.
Qed.

Lemma str_in_subst_char (a b : ascii) (s : string) :
  a ≠ b -> str_in (String a EmptyString) (subst_char a b s) = false.
Proof.
  intros Hab. induction s as [|c s IH]; [done|].
  cbn [subst_char str_in String.prefix]. rewrite IH, orb_false_r.
  destruct (Ascii.eqb_spec c a) as [->|Hca];
    destruct (ascii_dec _ _); congruence.
Qed.

(** Stripping an already stripped string changes nothing. *)
Lemma lstrip_rstrip (chars s : string) :
  lstrip chars s = s -> lstrip chars (rstrip chars s) = rstrip chars s.
Proof.
  destruct s as [|c s]; [done|]. cbn [lstrip rstrip].
  destruct (char_in c chars) eqn:E.
  - intros H. assert (Hl : String.length (lstrip chars s) <= String.length s).
    { clear. induction s as [|d s IH]; simpl; [done|].
      destruct (char_in d chars); simpl; lia. }
    rewrite H in Hl. simpl in Hl. lia.
  - intros _. destruct (rstrip chars s); simpl; by rewrite E.
Qed.

Lemma lstrip_idem (chars s : string) :
  lstrip chars (lstrip chars s) = lstrip chars s.
Proof.
  induction s as [|c s IH]; [done|]. simpl.
  destruct (char_in c chars) eqn:E; [done|]. simpl. by rewrite E.
Qed.

Lemma rstrip_idem (chars s : string) :
  rstrip chars (rstrip chars s) = rstrip chars s.
Proof.
  induction s as [|c s IH]; [done|]. simpl.
  destruct (rstrip chars s) as [|d r] eqn:E.
  - destruct (char_in c chars) eqn:Ec; simpl; [done | by rewrite Ec].
  - cbn [rstrip]. cbn [rstrip] in IH. rewrite IH. done.
Qed.

Lemma strip_idem (chars s : string) :
  strip chars (strip chars s) = strip chars s.
Proof.
  unfold strip. rewrite lstrip_rstrip by apply lstrip_idem.
  apply rstrip_idem.
Qed.

(** Substituting characters outside [chars] commutes with stripping. *)
Lemma lstrip_subst_char (chars : string) (a b : ascii) (s : string) :
  char_in a chars = false -> char_in b chars = false ->
  lstrip chars (subst_char a b s) = subst_char a b (lstrip chars s).
Proof.
  intros Ha Hb. induction s as [|c s IH]; [done|]. simpl.
  destruct (Ascii.eqb_spec c a) as [->|Hca].
  - rewrite Hb, Ha. simpl. by rewrite Ascii.eqb_refl.
  - destruct (char_in c chars); [apply IH|]. simpl.
    destruct (Ascii.eqb_spec c a); congruence.
Qed.

Lemma rstrip_subst_char (chars : string) (a b : ascii) (s : string) :
  char_in a chars = false -> char_in b chars = false ->
  rstrip chars (subst_char a b s) = subst_char a b (rstrip chars s).
Proof.
  intros Ha Hb. induction s as [|c s IH]; [done|]. simpl. rewrite IH.
  destruct (rstrip chars s) as [|d r]; simpl; [|done].
  destruct (Ascii.eqb_spec c a) as [->|Hca].
  - rewrite Hb, Ha. simpl. by rewrite Ascii.eqb_refl.
  - destruct (char_in c chars); [done|]. simpl.
    destruct (Ascii.eqb_spec c a); congruence.
Qed.

Lemma strip_subst_char (chars : string) (a b : ascii) (s : string) :
  char_in a chars = false -> char_in b chars = false ->
  strip chars (subst_char a b s) = subst_char a b (strip chars s).
Proof.
  intros Ha Hb. unfold strip.
  by rewrite lstrip_subst_char, rstrip_subst_char.
Qed.

End PyStrFacts.

(** ** Slug derivation *)

Lemma get_clean_slug_unfold (url : string) :
  get_clean_slug url =
  PyStr.subst_char "-" " "
    (PyStr.strip "/" (PyStr.last_piece (PyStr.split REQUIRED_PATH url))).
Proof. unfold get_clean_slug. apply replace_one_char. Qed.

(** The piece after the marker, when the marker occurs first at the end of
    [p] and not at all in [r]. *)
Lemma split_at_marker (p r : string) :
  PyStr.str_in REQUIRED_PATH (p +:+ "/get-started") = false ->
  PyStr.str_in REQUIRED_PATH r = false ->
  PyStr.split REQUIRED_PATH (p +:+ REQUIRED_PATH +:+ r) = [p; r].
Proof.
  intros Hp Hr. unfold PyStr.split.
  change (REQUIRED_PATH +:+ r) with ("/get-started" +:+ "/" +:+ r).
  rewrite (split_go_before REQUIRED_PATH "/get-started" p ("/" +:+ r)
             EmptyString [r]).
  - by rewrite append_nil_r.
  - simpl. lia.
  - done.
  - change ("/get-started" +:+ "/" +:+ r) with (String "/" ("get-started/" +:+ r)).
    cbn [PyStr.split_go]. 
    assert (Hpre : String.prefix REQUIRED_PATH (String "/" ("get-started/" +:+ r)) = true)
      by apply (prefix_append REQUIRED_PATH r).
    rewrite Hpre. f_equal.
    change (String.length REQUIRED_PATH - 1) with (String.length "get-started/").
    rewrite split_go_skip. by apply split_go_no_match.
Qed.

(** C8: the slug is a function of the identifier alone; on an identifier
    [p ++ "/get-started/" ++ r] whose only marker is the one shown, the slug is
    [r] with leading and trailing "/" removed and every hyphen turned into a
    space; no slug starts or ends with "/" or contains a hyphen; and the
    identifier "https://x/get-started/Some-Thing/" gives "Some Thing". *)
Theorem get_clean_slug_derivation :
  get_clean_slug "https://x/get-started/Some-Thing/" = "Some Thing" /\
  (forall id1 id2 : string, id1 = id2 -> get_clean_slug id1 = get_clean_slug id2) /\
  (forall p r : string,
     PyStr.str_in REQUIRED_PATH (p +:+ "/get-started") = false ->
     PyStr.str_in REQUIRED_PATH r = false ->
     get_clean_slug (p +:+ REQUIRED_PATH +:+ r)
     = PyStr.subst_char "-" " " (PyStr.strip "/" r)) /\
  (forall id : string,
     PyStr.strip "/" (get_clean_slug id) = get_clean_slug id /\
     PyStr.str_in "-" (get_clean_slug id) = false).
Proof.
  split; [reflexivity|]. split; [by intros ? ? ->|]. split.
  - intros p r Hp Hr. rewrite get_clean_slug_unfold.
    by rewrite (split_at_marker p r Hp Hr).
  - intros id. rewrite get_clean_slug_unfold. split.
    + rewrite <- strip_subst_char by reflexivity.
      by rewrite strip_idem.
    + by apply str_in_subst_char.
Qed.

Lemma get_clean_slug_derivation_witness :
  get_clean_slug ("https://x" +:+ REQUIRED_PATH +:+ "Some-Thing/")
  = PyStr.subst_char "-" " " (PyStr.strip "/" "Some-Thing/").
Proof.
  apply (proj1 (proj2 (proj2 get_clean_slug_derivation))); reflexivity.
Defined.

(** C10: the derivation is defined on every string; on an identifier without
    the marker it returns the whole identifier with leading and trailing "/"
    removed and every hyphen turned into a space. *)
Theorem get_clean_slug_without_marker (id : string) :
  PyStr.str_in REQUIRED_PATH id = false ->
  get_clean_slug id = PyStr.subst_char "-" " " (PyStr.strip "/" id).
Proof.
  intros Hid. rewrite get_clean_slug_unfold. unfold PyStr.split.
  by rewrite (split_go_no_match _ _ Hid).
Qed.

Lemma get_clean_slug_without_marker_witness :
  PyStr.str_in REQUIRED_PATH "/a-b/c-d/" = false /\
  get_clean_slug "/a-b/c-d/" = PyStr.subst_char "-" " " (PyStr.strip "/" "/a-b/c-d/").
Proof.
  split; [reflexivity|].
  apply (get_clean_slug_without_marker "/a-b/c-d/"). reflexivity.
Defined.

(** ** The monad *)

Lemma bind_Ret {A B} (m : M A) (f : A -> M B) (w w' : World) (a : A) :
  m w = Ret a w' -> (m ≫= f) w = f a w'.
Proof. intros H. unfold mbind, M_bind. by rewrite H. Qed.

Lemma bind_Raise {A B} (m : M A) (f : A -> M B) (w w' : World) (e : exn) :
  m w = Raise e w' -> (m ≫= f) w = Raise e w'.
Proof. intros H. unfold mbind, M_bind. by rewrite H. Qed.

Lemma isinstance_Exception (e : exn) : isinstance e Exception = true.
Proof. destruct e as [[] msg]; reflexivity. Qed.

(** [except Exception] lets nothing through. *)
Lemma try_except_Exception {A} (body : M A) (handler : exn -> M A) (w : World) :
  try_except body Exception handler w =
  match body w with
  | Ret a w' => Ret a w'
  | Raise e w' => handler e w'
  end.
Proof.
  unfold try_except. destruct (body w) as [a w'|e w']; [done|].
  by rewrite isinstance_Exception.
Qed.

Ltac unfold_monad :=
  unfold mbind, mret, M_bind, M_ret, lift, raise, call, emit, logging_info,
    logging_error, print, time_sleep, tick in *; simpl in *.

(** ** Checkpoint store *)

Lemma load_save_state_cases (w : World) :
  load_save_state w =
  match ckpt w with
  | Absent => Ret fresh_state w
  | Garbled why => Raise (mkExn JSONDecodeError why) w
  | Stored st => Ret st w
  end.
Proof.
  unfold load_save_state, try_except, open_and_json_load.
  destruct (ckpt w); reflexivity.
Qed.

(** ** Image generator adapter *)

(** What a call of the adapter returns and leaves in the world. *)
Lemma generate_icon_cases (env : Env) (slug : string) (w : World) :
  (substeps_succeed env (clock w) slug /\
   exists w', generate_icon env slug w = Ret (true, icon_path slug) w' /\
     ckpt w' = ckpt w /\
     trace w' = trace w ++ [Invoke slug; Done slug true (icon_path slug)]) \/
  (exists e, substep_fails env (clock w) slug e /\
   exists w', generate_icon env slug w = Ret (false, exn_str e) w' /\
     ckpt w' = ckpt w /\
     trace w' = trace w ++
       [Invoke slug;
        Log ERROR ("Error generating icon for " +:+ slug +:+ ": " +:+ exn_str e);
        Done slug false (exn_str e)]).
Proof.
  unfold generate_icon.
  assert (Hend : forall (tr : list event) (a b c : event),
            ((tr ++ [a]) ++ [b]) ++ [c] = tr ++ [a; b; c])
    by (intros; by rewrite <- !app_assoc).
  destruct (Image_create env (clock w) (prompt_for slug)) as [url|e] eqn:E1;
    [destruct (requests_get env (S (clock w)) url) as [resp|e] eqn:E2;
     [destruct (Image_open env (content resp)) as [img|e] eqn:E3;
      [destruct (Image_lanczos env img 256 256) as [px|e] eqn:E4;
       [destruct (Image_save env (S (S (clock w))) (icon_path slug)) as [e|] eqn:E5
       |]|]|]|].
  2:{ left. split; [by exists url, resp, img, px|].
      eexists. unfold mbind at 1, M_bind at 1. cbn [emit].
      rewrite try_except_Exception. unfold_monad.
      rewrite E1; simpl; rewrite E2; simpl; rewrite E3; simpl.
      unfold resize; rewrite E4; simpl. unfold image_save; simpl. rewrite E5.
      split; [reflexivity|]. simpl. split; [done|]. by rewrite <- !app_assoc. }
  all: right; exists e.
  all: split;
    [ first [ by apply provider_fails | by eapply download_fails
            | by eapply decode_fails | by eapply resize_fails
            | by eapply save_fails ] |].
  all: eexists; unfold mbind at 1, M_bind at 1; cbn [emit];
    rewrite try_except_Exception; unfold_monad.
  all: rewrite E1; simpl; try (rewrite E2; simpl); try (rewrite E3; simpl);
    unfold resize; try (rewrite E4; simpl);
    unfold image_save; simpl; try rewrite E5.
  all: split; [reflexivity|]; simpl; split; [done|]; apply Hend.
Qed.

(** C5: the adapter returns on every input and in every environment; a
    failure of any sub-step (provider call, download, decoding, resizing,
    saving) gives the pair [(False, str(e))], and when every sub-step succeeds
    the result is [(True, filepath)]. *)
Theorem generate_icon_catches_all (env : Env) (slug : string) (w : World) :
  (exists ok res w', generate_icon env slug w = Ret (ok, res) w') /\
  (forall e, substep_fails env (clock w) slug e ->
     exists w', generate_icon env slug w = Ret (false, exn_str e) w') /\
  (substeps_succeed env (clock w) slug ->
     exists w', generate_icon env slug w = Ret (true, icon_path slug) w').
Proof.
  destruct (generate_icon_cases env slug w)
    as [[Hs (w' & Hg & _)] | (e' & Hf' & w' & Hg & _)].
  - split; [by eauto|]. split; [|by eauto].
    intros e Hf. destruct Hs as (url & resp & img & px & H1 & H2 & H3 & H4 & H5).
    inversion Hf; congruence.
  - split; [by eauto|]. split.
    + intros e Hf. exists w'. rewrite Hg.
      inversion Hf; inversion Hf'; congruence.
    + intros (url & resp & img & px & H1 & H2 & H3 & H4 & H5).
      inversion Hf'; congruence.
Qed.

Lemma generate_icon_catches_all_witness :
  exists w',
    generate_icon sample_env "b c" (mkWorld Absent ∅ 4 [])
    = Ret (false, "content policy violation") w'.
Proof.
  apply (proj1 (proj2 (generate_icon_catches_all sample_env "b c"
                         (mkWorld Absent ∅ 4 [])))
           (mkExn OpenAIError "content policy violation")).
  apply provider_fails. reflexivity.
Defined.

(** ** Catalog fetcher *)

Lemma any_lang_in_text (langs : list string) (u : string) :
  any_lang_in langs (Some u) = Ok (existsb (fun lang => PyStr.str_in lang u) langs).
Proof.
  induction langs as [|lang langs IH]; [done|]. simpl.
  destruct (PyStr.str_in lang u); [done | apply IH].
Qed.

Lemma wanted_text (u : string) : wanted (Some u) = Ok (is_candidate u).
Proof.
  unfold wanted, is_candidate. cbn [in_text].
  destruct (PyStr.str_in REQUIRED_PATH u); [|reflexivity].
  rewrite any_lang_in_text. rewrite andb_true_l. f_equal.
  induction EXCLUDED_LANGS as [|lang langs IH]; [done|]. simpl.
  rewrite negb_orb. by rewrite IH.
Qed.

Lemma collect_urls_texts (locs : list (option string)) (urls : list string) :
  Forall is_Some locs ->
  collect_urls locs urls = Ok (urls ++ candidates_of locs).
Proof.
  intros Hall. revert urls.
  induction Hall as [|t locs [u ->] _ IH]; intros urls.
  - simpl. by rewrite app_nil_r.
  - cbn [collect_urls]. rewrite wanted_text. unfold candidates_of.
    cbn [omap list_omap is_candidate_entry]. fold (candidates_of locs).
    destruct (is_candidate u).
    + rewrite IH. simpl. by rewrite <- app_assoc.
    + apply IH.
Qed.

Lemma collect_urls_no_text (locs : list (option string)) (urls : list string) :
  None ∈ locs ->
  collect_urls locs urls
  = Fail (mkExn TypeError "argument of type 'NoneType' is not iterable").
Proof.
  revert urls. induction locs as [|t locs IH]; intros urls Hin.
  - by apply elem_of_nil in Hin.
  - destruct t as [u|]; [|done].
    apply elem_of_cons in Hin as [?|Hin]; [done|].
    cbn [collect_urls]. rewrite wanted_text.
    destruct (is_candidate u); by apply IH.
Qed.

Lemma raise_for_status_ok (r : response) (w : World) :
  ~ 400 <= status_code r < 600 -> raise_for_status r w = Ret tt w.
Proof.
  intros H. unfold raise_for_status.
  rewrite !bool_decide_eq_false_2 by lia. done.
Qed.

Lemma raise_for_status_error (r : response) (w : World) :
  400 <= status_code r < 600 ->
  exists msg, raise_for_status r w = Raise (mkExn HTTPError msg) w.
Proof.
  intros H. unfold raise_for_status.
  destruct (bool_decide (400 <= status_code r < 500)) eqn:E1; [by eexists|].
  apply bool_decide_eq_false in E1.
  rewrite bool_decide_eq_true_2 by lia. by eexists.
Qed.

(** The fetcher changes neither the checkpoint nor the icons, and extends the
    trace by log lines only. *)
Lemma fetch_sitemap_urls_frame (env : Env) (w : World) :
  exists urls w' evs,
    fetch_sitemap_urls env w = Ret urls w' /\
    ckpt w' = ckpt w /\ icons w' = icons w /\
    trace w' = trace w ++ evs /\
    invoked evs = [] /\ succeeded evs = [] /\ failures evs = [] /\
    saves evs = [] /\ sleeps evs = [] /\ printed evs = [].
Proof.
  unfold fetch_sitemap_urls. rewrite try_except_Exception.
  assert (Hlog : forall e,
    exists urls w' evs,
      (logging_error ("Error fetching sitemap: " +:+ exn_str e);;
       mret ([] : list string)) (tick w) = Ret urls w' /\
      ckpt w' = ckpt w /\ icons w' = icons w /\
      trace w' = trace w ++ evs /\
      invoked evs = [] /\ succeeded evs = [] /\ failures evs = [] /\
      saves evs = [] /\ sleeps evs = [] /\ printed evs = []).
  { intros e. do 2 eexists. eexists [_]. unfold_monad. repeat split. }
  assert (Hok : forall urls,
    exists urls' w' evs,
      @Ret (list string) urls (tick w) = Ret urls' w' /\
      ckpt w' = ckpt w /\ icons w' = icons w /\
      trace w' = trace w ++ evs /\
      invoked evs = [] /\ succeeded evs = [] /\ failures evs = [] /\
      saves evs = [] /\ sleeps evs = [] /\ printed evs = []).
  { intros urls. do 2 eexists. exists []. simpl. rewrite app_nil_r.
    repeat split. }
  unfold mbind at 1, M_bind at 1, call.
  destruct (requests_get env (clock w) SITEMAP_URL) as [resp|e]; [|apply Hlog].
  unfold mbind at 1, M_bind at 1.
  destruct (decide (400 <= status_code resp < 600)) as [Hst|Hst].
  { destruct (raise_for_status_error resp (tick w) Hst) as [msg ->]. apply Hlog. }
  rewrite (raise_for_status_ok resp (tick w) Hst).
  unfold mbind, M_bind, lift.
  destruct (ET_locs env (content resp)) as [locs|e]; [|apply Hlog].
  unfold mret, M_ret.
  destruct (collect_urls locs []) as [urls|e]; [apply Hok | apply Hlog].
Qed.

Lemma candidates_of_texts (entries : list string) :
  candidates_of (Some <$> entries) = List.filter is_candidate entries.
Proof.
  unfold candidates_of. induction entries as [|u entries IH]; [done|].
  cbn [fmap list_fmap omap list_omap is_candidate_entry List.filter].
  destruct (is_candidate u); simpl; by rewrite <- IH.
Qed.

(** C6, as the code has it: the fetcher returns on every input; when the
    sitemap is retrieved and parsed and every [loc] element has text, the
    result is exactly the entries that contain the required marker and none
    of the excluded ones, in the order of the sitemap; when the request
    fails, the status is an error, the document does not parse or some [loc]
    element has no text, the result is the empty list. *)
Theorem fetch_sitemap_urls_filter (env : Env) (w : World) :
  (exists urls w', fetch_sitemap_urls env w = Ret urls w') /\
  (forall resp entries,
     requests_get env (clock w) SITEMAP_URL = Ok resp ->
     ~ 400 <= status_code resp < 600 ->
     ET_locs env (content resp) = Ok (Some <$> entries) ->
     fetch_sitemap_urls env w = Ret (List.filter is_candidate entries) (tick w)) /\
  (fetch_fails env (clock w) ->
     exists w', fetch_sitemap_urls env w = Ret [] w').
Proof.
  split; [|split].
  - destruct (fetch_sitemap_urls_frame env w) as (urls & w' & _ & H & _).
    by eauto.
  - intros resp entries Hget Hst Hlocs.
    unfold fetch_sitemap_urls. rewrite try_except_Exception.
    unfold mbind at 1, M_bind at 1, call. rewrite Hget.
    unfold mbind at 1, M_bind at 1. rewrite (raise_for_status_ok _ _ Hst).
    unfold mbind, M_bind, lift. rewrite Hlocs. unfold mret, M_ret.
    rewrite collect_urls_texts.
    + by rewrite app_nil_l, candidates_of_texts.
    + apply Forall_fmap, Forall_forall. by eauto.
  - intros Hfail.
    unfold fetch_sitemap_urls. rewrite try_except_Exception.
    unfold mbind at 1, M_bind at 1, call.
    destruct Hfail as [e Hget | resp Hget Hst | resp e Hget Hst Hlocs
                      | resp locs Hget Hst Hlocs Hnone]; rewrite Hget.
    + by eexists.
    + unfold mbind at 1, M_bind at 1.
      destruct (raise_for_status_error resp (tick w) Hst) as [msg ->].
      by eexists.
    + unfold mbind at 1, M_bind at 1. rewrite (raise_for_status_ok _ _ Hst).
      unfold mbind, M_bind, lift. rewrite Hlocs. by eexists.
    + unfold mbind at 1, M_bind at 1. rewrite (raise_for_status_ok _ _ Hst).
      unfold mbind, M_bind, lift. rewrite Hlocs. unfold mret, M_ret.
      rewrite (collect_urls_no_text _ _ Hnone). by eexists.
Qed.

Lemma fetch_sitemap_urls_filter_witness :
  fetch_sitemap_urls sample_env empty_world
  = Ret ["https://x/get-started/Some-Thing/"; "https://x/get-started/b-c/"]
        (tick empty_world).
Proof.
  apply (proj1 (proj2 (fetch_sitemap_urls_filter sample_env empty_world))
           (mkResponse SITEMAP_URL 200 "OK" "<urlset>...</urlset>")
           ["https://x/get-started/Some-Thing/"; "https://x/de/get-started/a/";
            "https://x/get-started/b-c/"; "https://x/about/"]).
  - reflexivity.
  - simpl. lia.
  - reflexivity.
Defined.

(** Against C6 as stated: the sitemap is retrieved and parsed, one entry
    contains the marker and no excluded one, and the result is empty. *)
Lemma fetch_sitemap_urls_empty_loc :
  ET_locs empty_loc_env "<urlset>...</urlset>"
  = Ok [None; Some "https://x/get-started/a/"] /\
  candidates_of [None; Some "https://x/get-started/a/"]
  = ["https://x/get-started/a/"] /\
  fetch_sitemap_urls empty_loc_env empty_world
  = Ret [] (mkWorld Absent ∅ 1
       [Log ERROR
          "Error fetching sitemap: argument of type 'NoneType' is not iterable"]).
Proof. repeat split. Qed.

(** ** Checkpoint store: loading *)

Lemma main_load_raises (env : Env) (w : World) (e : exn) :
  os_makedirs env = None ->
  load_save_state w = Raise e w ->
  main env w = Raise e w.
Proof.
  intros Hmk Hload. unfold main, startup, makedirs. rewrite Hmk.
  unfold mbind, M_bind, mret, M_ret. by rewrite Hload.
Qed.

(** C3, as the code has it: without a checkpoint file the load returns the
    fresh state, with a stored checkpoint it returns that checkpoint, and on
    a file the decoder rejects it raises the decoder's error, which ends the
    run before any candidate is fetched. *)
Theorem load_save_state_outcomes :
  (forall w, ckpt w = Absent -> load_save_state w = Ret fresh_state w) /\
  (forall w st, ckpt w = Stored st -> load_save_state w = Ret st w) /\
  (forall w why, ckpt w = Garbled why ->
     load_save_state w = Raise (mkExn JSONDecodeError why) w /\
     forall env, os_makedirs env = None ->
       main env w = Raise (mkExn JSONDecodeError why) w).
Proof.
  split; [|split].
  - intros w H. by rewrite load_save_state_cases, H.
  - intros w st H. by rewrite load_save_state_cases, H.
  - intros w why H.
    assert (Hl : load_save_state w = Raise (mkExn JSONDecodeError why) w)
      by (by rewrite load_save_state_cases, H).
    split; [done|]. intros env Hmk. by apply main_load_raises.
Qed.

Lemma load_save_state_outcomes_witness :
  load_save_state corrupt_world
  = Raise (mkExn JSONDecodeError "Expecting value: line 1 column 1 (char 0)")
          corrupt_world.
Proof.
  apply (proj1 (proj2 (proj2 load_save_state_outcomes) corrupt_world
                 "Expecting value: line 1 column 1 (char 0)" eq_refl)).
Defined.

(** Against C3 as stated: on a corrupt checkpoint the load raises, and so
    does the run. *)
Lemma load_save_state_corrupt :
  load_save_state corrupt_world
  = Raise (mkExn JSONDecodeError "Expecting value: line 1 column 1 (char 0)")
          corrupt_world /\
  main sample_env corrupt_world
  = Raise (mkExn JSONDecodeError "Expecting value: line 1 column 1 (char 0)")
          corrupt_world.
Proof. split; reflexivity. Qed.

(** ** Batch orchestrator: one candidate *)

Lemma synced_load (st : State) (w : World) :
  synced st w <-> load_save_state w = Ret st w.
Proof.
  rewrite load_save_state_cases. unfold synced.
  destruct (ckpt w) as [|why|st0]; split; intros H.
  - destruct H as [?|[_ ->]]; done.
  - right. split; congruence.
  - destruct H as [?|[? _]]; done.
  - done.
  - destruct H as [?|[? _]]; [congruence | done].
  - left. congruence.
Qed.

(** A candidate whose slug is in [processed_slugs]: one log line, nothing
    else. *)
Lemma process_url_skip (env : Env) (url : string) (st : State) (w : World) :
  get_clean_slug url ∈ processed_slugs st ->
  process_url env url st w
  = Ret st (mkWorld (ckpt w) (icons w) (clock w)
              (trace w ++ [skip_line (get_clean_slug url)])).
Proof.
  intros Hin. unfold process_url.
  by rewrite bool_decide_eq_true_2 by done.
Qed.

(** A candidate whose slug is not in [processed_slugs], when the adapter
    succeeds and when it fails. *)
Lemma process_url_attempt (env : Env) (url : string) (st : State) (w : World) :
  let slug := get_clean_slug url in
  slug ∉ processed_slugs st ->
  (substeps_succeed env (clock w) slug /\
   let st' := mkState (processed_slugs st ++ [slug]) (failed_slugs st) in
   exists w',
     process_url env url st w = Ret st' w' /\
     ckpt w' = Stored st' /\
     trace w' = trace w ++
       [Log INFO ("Processing: " +:+ slug);
        Print ("Generating icon for: " +:+ slug);
        Invoke slug;
        Done slug true (icon_path slug);
        Log INFO ("Successfully generated icon: " +:+ icon_path slug);
        Print ("Success: " +:+ icon_path slug);
        Saved st'; Sleep 2]) \/
  (exists e, substep_fails env (clock w) slug e /\
   let st' := mkState (processed_slugs st)
                (failed_slugs st ++ [mkFailure slug (exn_str e)]) in
   exists w',
     process_url env url st w = Ret st' w' /\
     ckpt w' = Stored st' /\
     trace w' = trace w ++
       [Log INFO ("Processing: " +:+ slug);
        Print ("Generating icon for: " +:+ slug);
        Invoke slug;
        Log ERROR ("Error generating icon for " +:+ slug +:+ ": " +:+ exn_str e);
        Done slug false (exn_str e);
        Log ERROR ("Failed to generate icon for " +:+ slug +:+ ": " +:+ exn_str e);
        Print ("Failed: " +:+ exn_str e);
        Saved st'; Sleep 2]).
Proof.
  intros slug Hnot.
  set (w2 := mkWorld (ckpt w) (icons w) (clock w)
               ((trace w ++ [Log INFO ("Processing: " +:+ slug)])
                ++ [Print ("Generating icon for: " +:+ slug)])).
  destruct (generate_icon_cases env slug w2)
    as [[Hs (w3 & Hg & Hck & Htr)] | (e & Hf & w3 & Hg & Hck & Htr)].
  - left. split; [exact Hs|]. intros st'. eexists.
    split; [|split].
    + unfold process_url. fold slug. rewrite bool_decide_eq_false_2 by done.
      erewrite bind_Ret by reflexivity.
      erewrite bind_Ret by reflexivity.
      erewrite bind_Ret by exact Hg.
      reflexivity.
    + reflexivity.
    + simpl. rewrite Htr. unfold w2. simpl. by rewrite <- !app_assoc.
  - right. exists e. split; [exact Hf|]. intros st'. eexists.
    split; [|split].
    + unfold process_url. fold slug. rewrite bool_decide_eq_false_2 by done.
      erewrite bind_Ret by reflexivity.
      erewrite bind_Ret by reflexivity.
      erewrite bind_Ret by exact Hg.
      reflexivity.
    + reflexivity.
    + simpl. rewrite Htr. unfold w2. simpl. by rewrite <- !app_assoc.
Qed.

(** ** Batch orchestrator: accounting for a stretch of the trace *)

Lemma invoked_app (l k : list event) : invoked (l ++ k) = invoked l ++ invoked k.
Proof. apply omap_app. Qed.
Lemma succeeded_app (l k : list event) :
  succeeded (l ++ k) = succeeded l ++ succeeded k.
Proof. apply omap_app. Qed.
Lemma failures_app (l k : list event) :
  failures (l ++ k) = failures l ++ failures k.
Proof. apply omap_app. Qed.
Lemma saves_app (l k : list event) : saves (l ++ k) = saves l ++ saves k.
Proof. apply omap_app. Qed.
Lemma sleeps_app (l k : list event) : sleeps (l ++ k) = sleeps l ++ sleeps k.
Proof. apply omap_app. Qed.
Lemma printed_app (l k : list event) : printed (l ++ k) = printed l ++ printed k.
Proof. apply omap_app. Qed.

Ltac close_accounts :=
  repeat split;
  first [ done
        | by rewrite app_nil_r
        | by intros ? ?%elem_of_nil
        | by intros ? ->%list_elem_of_singleton
        | by (intros ? ->%list_elem_of_singleton; apply list_elem_of_singleton)
        | by apply NoDup_nil_2
        | by apply NoDup_singleton
        | by (intros _; left) ].

Lemma accounts_refl (st : State) (w : World) : accounts st w st w [].
Proof. unfold accounts. simpl. rewrite !app_nil_r. close_accounts. Qed.

Lemma accounts_trans (st st1 st2 : State) (w w1 w2 : World)
    (seg1 seg2 : list event) :
  accounts st w st1 w1 seg1 ->
  accounts st1 w1 st2 w2 seg2 ->
  accounts st w st2 w2 (seg1 ++ seg2).
Proof.
  intros (Ht1 & Hp1 & Hf1 & Hi1 & Hs1 & Hk1 & Hn1 & Hy1 & Hc1 & Hz1)
         (Ht2 & Hp2 & Hf2 & Hi2 & Hs2 & Hk2 & Hn2 & Hy2 & Hc2 & Hz2).
  unfold accounts.
  rewrite invoked_app, succeeded_app, failures_app, saves_app, sleeps_app.
  repeat split.
  - by rewrite Ht2, Ht1, app_assoc.
  - by rewrite Hp2, Hp1, app_assoc.
  - by rewrite Hf2, Hf1, app_assoc.
  - intros S [HS|HS]%elem_of_app; [by apply Hi1|].
    apply Hi2 in HS. rewrite Hp1 in HS. intros Hin. apply HS.
    apply elem_of_app. by left.
  - intros S [HS|HS]%elem_of_app; apply elem_of_app; [left|right]; auto.
  - intros f [Hf|Hf]%elem_of_app; apply elem_of_app; [left|right]; auto.
  - apply NoDup_app. repeat split; [done| |done].
    intros S HS1 HS2. apply Hs2, Hi2 in HS2. apply HS2. rewrite Hp1.
    apply elem_of_app. by right.
  - auto.
  - intros [H1 H2]%app_eq_nil. rewrite Hc2, Hc1; done.
  - by rewrite Hz1, Hz2, length_app, replicate_add.
Qed.

Lemma accounts_NoDup (st st' : State) (w w' : World) (seg : list event) :
  accounts st w st' w' seg ->
  NoDup (processed_slugs st) -> NoDup (processed_slugs st').
Proof.
  intros (_ & Hp & _ & Hi & Hs & _ & Hn & _) Hnd. rewrite Hp.
  apply NoDup_app. repeat split; [done| |done].
  intros S HS1 HS2. by apply Hs, Hi in HS2.
Qed.

Lemma process_url_accounts (env : Env) (url : string) (st : State) (w : World) :
  exists st' w' seg,
    process_url env url st w = Ret st' w' /\
    accounts st w st' w' seg /\
    (get_clean_slug url ∈ processed_slugs st \/
     get_clean_slug url ∈ invoked seg).
Proof.
  destruct (decide (get_clean_slug url ∈ processed_slugs st)) as [Hin|Hnot].
  - exists st. eexists. exists [skip_line (get_clean_slug url)].
    split; [by apply process_url_skip|]. split; [|by left].
    unfold accounts. simpl. rewrite !app_nil_r. close_accounts.
  - destruct (process_url_attempt env url st w Hnot)
      as [[_ (w' & Hp & Hck & Htr)] | (e & _ & w' & Hp & Hck & Htr)].
    + do 2 eexists. eexists. split; [exact Hp|]. split.
      * unfold accounts. split; [exact Htr|]. simpl. close_accounts.
      * right. simpl. by apply list_elem_of_singleton.
    + do 2 eexists. eexists. split; [exact Hp|]. split.
      * unfold accounts. split; [exact Htr|]. simpl. rewrite app_nil_r.
        close_accounts.
      * right. simpl. by apply list_elem_of_singleton.
Qed.

(** ** Batch orchestrator: the loop *)

Lemma process_urls_app (env : Env) (urls1 urls2 : list string)
    (st st1 : State) (w w1 : World) :
  process_urls env urls1 st w = Ret st1 w1 ->
  process_urls env (urls1 ++ urls2) st w = process_urls env urls2 st1 w1.
Proof.
  revert st w. induction urls1 as [|url urls1 IH]; intros st w H.
  - simpl in H. by injection H as -> ->.
  - simpl in *. unfold mbind, M_bind in *.
    destruct (process_url env url st w) as [st' w'|e w']; [|done].
    by apply IH.
Qed.

(** The loop returns, and its trace accounts for the change of state; every
    candidate is either already processed or handed to the adapter. *)
Lemma process_urls_accounts (env : Env) (urls : list string) (st : State)
    (w : World) :
  exists st' w' seg,
    process_urls env urls st w = Ret st' w' /\
    accounts st w st' w' seg /\
    (forall url, url ∈ urls ->
       get_clean_slug url ∈ processed_slugs st \/
       get_clean_slug url ∈ invoked seg).
Proof.
  revert st w. induction urls as [|url urls IH]; intros st w.
  - exists st, w, []. split; [done|]. split; [apply accounts_refl|].
    intros url Hin. by apply elem_of_nil in Hin.
  - destruct (process_url_accounts env url st w)
      as (st1 & w1 & seg1 & Hp1 & Ha1 & Hu1).
    destruct (IH st1 w1) as (st2 & w2 & seg2 & Hp2 & Ha2 & Hu2).
    exists st2, w2, (seg1 ++ seg2). split; [|split].
    + simpl. by rewrite (bind_Ret _ _ _ _ _ Hp1).
    + by eapply accounts_trans.
    + intros url' [->|Hin]%elem_of_cons; rewrite invoked_app.
      * destruct Hu1 as [?|?]; [by left | right].
        apply elem_of_app. by left.
      * destruct (Hu2 url' Hin) as [Hin1|Hin2].
        -- destruct Ha1 as (_ & Hpr & _ & _ & Hs1 & _).
           rewrite Hpr in Hin1. apply elem_of_app in Hin1 as [?|Hin1];
             [by left | right].
           apply elem_of_app. left. by apply Hs1.
        -- right. apply elem_of_app. by right.
Qed.

(** ** Start and end of a run *)

Lemma print_failures_trace (fails : list failure) (w : World) :
  print_failures fails w
  = Ret tt (mkWorld (ckpt w) (icons w) (clock w)
       (trace w ++
        (Print <$> map (fun fail => "- " +:+ slug fail +:+ ": " +:+ error fail)
                     fails))).
Proof.
  revert w. induction fails as [|fail fails IH]; intros w.
  - simpl. rewrite app_nil_r. by destruct w.
  - cbn [print_failures]. erewrite bind_Ret by reflexivity.
    rewrite IH. simpl. by rewrite <- app_assoc.
Qed.

Lemma report_frame (st : State) (w : World) :
  exists w',
    report st w = Ret tt w' /\
    ckpt w' = ckpt w /\ icons w' = icons w /\
    trace w' = trace w ++
      [Print "Icon generation completed!"; Log INFO "Icon generation completed!"]
      ++ (Print <$> summary_lines (failed_slugs st)).
Proof.
  unfold report.
  erewrite bind_Ret by reflexivity. erewrite bind_Ret by reflexivity.
  destruct (failed_slugs st) as [|fail fails].
  - eexists. split; [reflexivity|]. simpl. by rewrite <- app_assoc.
  - erewrite bind_Ret by reflexivity. rewrite print_failures_trace.
    eexists. split; [reflexivity|]. simpl. by rewrite <- !app_assoc.
Qed.

(** Lines on standard output are none of the other observations. *)
Lemma prints_quiet (lines : list string) :
  invoked (Print <$> lines) = [] /\ succeeded (Print <$> lines) = [] /\
  failures (Print <$> lines) = [] /\ saves (Print <$> lines) = [] /\
  sleeps (Print <$> lines) = [] /\ printed (Print <$> lines) = lines.
Proof.
  induction lines as [|l lines (H1 & H2 & H3 & H4 & H5 & H6)]; [done|].
  repeat split; try done. simpl. by rewrite <- H6 at 2.
Qed.

(** [main] up to the loop either raises in an unchanged world, or returns
    the loaded state and the candidates having written only log lines. *)
Lemma startup_cases (env : Env) (w : World) :
  (exists e, startup env w = Raise e w) \/
  (exists st urls w1 evs,
     startup env w = Ret (st, urls) w1 /\
     os_makedirs env = None /\
     load_save_state w = Ret st w /\
     (exists wf, fetch_sitemap_urls env w = Ret urls wf) /\
     ckpt w1 = ckpt w /\ icons w1 = icons w /\
     trace w1 = trace w ++ evs /\
     invoked evs = [] /\ succeeded evs = [] /\ failures evs = [] /\
     saves evs = [] /\ sleeps evs = [] /\ printed evs = []).
Proof.
  unfold startup, makedirs.
  destruct (os_makedirs env) as [e|] eqn:Hmk; [left; by exists e|].
  erewrite bind_Ret by reflexivity.
  destruct (load_save_state w) as [st w0|e w0] eqn:Hload.
  2:{ left. exists e. erewrite bind_Raise by exact Hload.
      rewrite load_save_state_cases in Hload.
      destruct (ckpt w); by simplify_eq. }
  assert (w0 = w) as ->.
  { rewrite load_save_state_cases in Hload. destruct (ckpt w); by simplify_eq. }
  right. erewrite bind_Ret by exact Hload.
  destruct (fetch_sitemap_urls_frame env w)
    as (urls & wf & evs & Hf & Hck & Hic & Htr & H1 & H2 & H3 & H4 & H5 & H6).
  erewrite bind_Ret by exact Hf. erewrite bind_Ret by reflexivity.
  exists st, urls. eexists.
  exists (evs ++ [Log INFO ("Found " +:+ pretty (length urls) +:+ " URLs to process")]).
  split; [reflexivity|]. split; [done|]. split; [done|].
  split; [by eauto|]. simpl.
  rewrite invoked_app, succeeded_app, failures_app, saves_app, sleeps_app,
    printed_app, H1, H2, H3, H4, H5, H6, Htr, app_assoc.
  repeat split; done.
Qed.

Lemma synced_frame (st : State) (w w' : World) :
  ckpt w' = ckpt w -> synced st w -> synced st w'.
Proof. unfold synced. by intros ->. Qed.

Lemma synced_disk (st : State) (w : World) :
  synced st w -> disk_processed w = processed_slugs st.
Proof. unfold synced, disk_processed. by intros [->|[-> ->]]. Qed.

(** ** Per-candidate effects *)

(** C9: a candidate whose slug is already processed leaves the state as it
    is and adds one log line to the world: no checkpoint write, no delay; a
    candidate that is attempted, whatever the adapter returns, ends with the
    checkpoint write followed by the only delay of the step, two seconds. *)
Theorem skip_no_delay_attempt_delay (env : Env) (url : string) (st : State)
    (w : World) :
  (get_clean_slug url ∈ processed_slugs st ->
     process_url env url st w
     = Ret st (mkWorld (ckpt w) (icons w) (clock w)
                 (trace w ++ [skip_line (get_clean_slug url)]))) /\
  (get_clean_slug url ∉ processed_slugs st ->
     exists st' w' seg,
       process_url env url st w = Ret st' w' /\
       trace w' = trace w ++ seg ++ [Saved st'; Sleep 2] /\
       invoked seg = [get_clean_slug url] /\
       saves seg = [] /\ sleeps seg = []).
Proof.
  split; [apply process_url_skip|]. intros Hnot.
  destruct (process_url_attempt env url st w Hnot)
    as [[_ (w' & Hp & Hck & Htr)] | (e & _ & w' & Hp & Hck & Htr)].
  - do 2 eexists. eexists (_ :: _ :: _ :: _ :: _ :: [_]).
    split; [exact Hp|]. split; [exact Htr|]. done.
  - do 2 eexists. eexists (_ :: _ :: _ :: _ :: _ :: _ :: [_]).
    split; [exact Hp|]. split; [exact Htr|]. done.
Qed.

Lemma skip_no_delay_attempt_delay_witness :
  process_url sample_env "https://x/get-started/Some-Thing/" resumed_state
    resumed_world
  = Ret resumed_state
      (mkWorld (Stored resumed_state) ∅ 0 [skip_line "Some Thing"]) /\
  exists st' w' seg,
    process_url sample_env "https://x/get-started/b-c/" resumed_state
      resumed_world = Ret st' w' /\
    trace w' = trace resumed_world ++ seg ++ [Saved st'; Sleep 2] /\
    invoked seg = ["b c"] /\ saves seg = [] /\ sleeps seg = [].
Proof.
  split.
  - apply (proj1 (skip_no_delay_attempt_delay sample_env
                    "https://x/get-started/Some-Thing/" resumed_state
                    resumed_world)).
    vm_compute. apply list_elem_of_singleton. reflexivity.
  - apply (proj2 (skip_no_delay_attempt_delay sample_env
                    "https://x/get-started/b-c/" resumed_state resumed_world)).
    vm_compute. intros H%list_elem_of_singleton. discriminate H.
Defined.

(** A skip and an attempt leave different traces. *)
Lemma process_url_skip_inv (env : Env) (url : string) (st : State) (w : World) :
  process_url env url st w
  = Ret st (mkWorld (ckpt w) (icons w) (clock w)
              (trace w ++ [skip_line (get_clean_slug url)])) ->
  get_clean_slug url ∈ processed_slugs st.
Proof.
  intros Hskip.
  destruct (decide (get_clean_slug url ∈ processed_slugs st)) as [|Hnot]; [done|].
  destruct (process_url_attempt env url st w Hnot)
    as [[_ (w' & Hp & _ & Htr)] | (e & _ & w' & Hp & _ & Htr)];
    rewrite Hp in Hskip; injection Hskip as _ ->; simpl in Htr;
    apply app_inv_head in Htr; discriminate Htr.
Qed.

(** ** Checkpoint durability *)

(** C2: an attempted candidate ends with the whole state written to the
    checkpoint file, before the delay and the next candidate; and when a run
    is killed after any number [n] of candidates, the state a fresh process
    loads is the state the killed run had in memory, so that the fresh run
    skips exactly the slugs processed before the run and those for which the
    adapter succeeded during it. *)
Theorem checkpoint_durability (env : Env) :
  (forall url st w,
     get_clean_slug url ∉ processed_slugs st ->
     exists st' w' pre,
       process_url env url st w = Ret st' w' /\
       ckpt w' = Stored st' /\
       trace w' = pre ++ [Saved st'; Sleep 2]) /\
  (forall n w st0 urls w1,
     startup env w = Ret (st0, urls) w1 ->
     exists st_n w_n seg,
       main_killed n env w = Ret st_n w_n /\
       trace w_n = trace w1 ++ seg /\
       load_save_state w_n = Ret st_n w_n /\
       processed_slugs st_n = processed_slugs st0 ++ succeeded seg /\
       forall env' url w2,
         process_url env' url st_n w2
         = Ret st_n (mkWorld (ckpt w2) (icons w2) (clock w2)
                       (trace w2 ++ [skip_line (get_clean_slug url)]))
         <-> get_clean_slug url ∈ processed_slugs st0 ++ succeeded seg).
Proof.
  split.
  - intros url st w Hnot.
    destruct (process_url_attempt env url st w Hnot)
      as [[_ (w' & Hp & Hck & Htr)] | (e & _ & w' & Hp & Hck & Htr)].
    + do 2 eexists. eexists (trace w ++ _ :: _ :: _ :: _ :: _ :: [_]).
      split; [exact Hp|]. split; [exact Hck|].
      rewrite Htr. by rewrite <- app_assoc.
    + do 2 eexists. eexists (trace w ++ _ :: _ :: _ :: _ :: _ :: _ :: [_]).
      split; [exact Hp|]. split; [exact Hck|].
      rewrite Htr. by rewrite <- app_assoc.
  - intros n w st0 urls w1 Hstart.
    assert (Hsync : synced st0 w1).
    { destruct (startup_cases env w)
        as [[e He] | (st & us & w1' & evs & Hs & _ & Hload & _ & Hck & _)];
        [congruence|].
      rewrite Hstart in Hs. injection Hs as <- <- <-.
      apply (synced_frame _ w); [done|]. by apply synced_load. }
    destruct (process_urls_accounts env (take n urls) st0 w1)
      as (st_n & w_n & seg & Hp & Hacc & _).
    destruct Hacc as (Htr & Hpr & _ & _ & _ & _ & _ & Hsy & _).
    exists st_n, w_n, seg. split; [|split; [done|split; [|split; [done|]]]].
    + unfold main_killed. by rewrite (bind_Ret _ _ _ _ _ Hstart).
    + by apply synced_load, Hsy.
    + intros env' url w2. rewrite <- Hpr. split.
      * apply process_url_skip_inv.
      * apply process_url_skip.
Qed.

Lemma checkpoint_durability_witness :
  exists st_n w_n seg,
    main_killed 1 sample_env empty_world = Ret st_n w_n /\
    trace w_n
    = trace (mkWorld Absent ∅ 1 [Log INFO "Found 2 URLs to process"]) ++ seg /\
    load_save_state w_n = Ret st_n w_n /\
    processed_slugs st_n = processed_slugs fresh_state ++ succeeded seg /\
    forall env' url w2,
      process_url env' url st_n w2
      = Ret st_n (mkWorld (ckpt w2) (icons w2) (clock w2)
                    (trace w2 ++ [skip_line (get_clean_slug url)]))
      <-> get_clean_slug url ∈ processed_slugs fresh_state ++ succeeded seg.
Proof.
  apply (proj2 (checkpoint_durability sample_env) 1 empty_world fresh_state
           ["https://x/get-started/Some-Thing/"; "https://x/get-started/b-c/"]).
  reflexivity.
Defined.

(** ** Failure isolation *)

(** C4: when the adapter fails on a candidate, that step leaves
    [processed_slugs] as it was, appends the slug with the error text to
    [failed_slugs] and writes the checkpoint; the loop goes on and returns,
    every later candidate being handed to the adapter unless its slug is
    already processed, and the failure is still recorded at the end. *)
Theorem failure_isolation (env : Env) (urls1 : list string) (url : string)
    (urls2 : list string) (st st1 st2 : State) (w w1 w2 : World)
    (seg : list event) (err : string) :
  process_urls env urls1 st w = Ret st1 w1 ->
  process_url env url st1 w1 = Ret st2 w2 ->
  trace w2 = trace w1 ++ seg ->
  Done (get_clean_slug url) false err ∈ seg ->
  processed_slugs st2 = processed_slugs st1 /\
  failed_slugs st2 = failed_slugs st1 ++ [mkFailure (get_clean_slug url) err] /\
  ckpt w2 = Stored st2 /\
  exists st' w' rest,
    process_urls env (urls1 ++ url :: urls2) st w = Ret st' w' /\
    process_urls env urls2 st2 w2 = Ret st' w' /\
    trace w' = trace w2 ++ rest /\
    (forall url', url' ∈ urls2 ->
       get_clean_slug url' ∈ processed_slugs st2 \/
       get_clean_slug url' ∈ invoked rest) /\
    mkFailure (get_clean_slug url) err ∈ failed_slugs st'.
Proof.
  intros Hloop Hstep Htr Hdone.
  assert (Hst2 : st2 = mkState (processed_slugs st1)
                   (failed_slugs st1 ++ [mkFailure (get_clean_slug url) err])
                 /\ ckpt w2 = Stored st2).
  { destruct (decide (get_clean_slug url ∈ processed_slugs st1)) as [Hin|Hnot].
    - rewrite (process_url_skip env url st1 w1 Hin) in Hstep.
      injection Hstep as _ <-. simpl in Htr. apply app_inv_head in Htr as <-.
      apply list_elem_of_singleton in Hdone. discriminate Hdone.
    - destruct (process_url_attempt env url st1 w1 Hnot)
        as [[_ (w' & Hp & Hck & Htr')] | (e & _ & w' & Hp & Hck & Htr')];
        rewrite Hp in Hstep; injection Hstep as <- <-;
        rewrite Htr' in Htr; apply app_inv_head in Htr as <-.
      + repeat (apply elem_of_cons in Hdone as [Hdone|Hdone];
                [discriminate Hdone|]).
        by apply elem_of_nil in Hdone.
      + repeat (apply elem_of_cons in Hdone as [Hdone|Hdone];
                [try discriminate Hdone|]).
        * injection Hdone as ->. done.
        * by apply elem_of_nil in Hdone. }
  destruct Hst2 as [Hst2 Hck]. split; [by rewrite Hst2|].
  split; [by rewrite Hst2|]. split; [done|].
  destruct (process_urls_accounts env urls2 st2 w2)
    as (st' & w' & rest & Hp & Hacc & Hall).
  exists st', w', rest. split; [|split; [done|]].
  - rewrite (process_urls_app env urls1 (url :: urls2) st st1 w w1 Hloop).
    simpl. by rewrite (bind_Ret _ _ _ _ _ Hstep).
  - destruct Hacc as (Htr' & _ & Hf & _). split; [done|]. split; [done|].
    rewrite Hf, Hst2. simpl. rewrite !elem_of_app. left. right.
    by apply list_elem_of_singleton.
Qed.

Lemma failure_isolation_witness :
  let st1 := mkState ["Some Thing"] [] in
  let st2 := mkState ["Some Thing"]
               [mkFailure "b c" "content policy violation"] in
  processed_slugs st2 = processed_slugs st1 /\
  failed_slugs st2
  = failed_slugs st1
    ++ [mkFailure (get_clean_slug "https://x/get-started/b-c/")
          "content policy violation"] /\
  Stored st2 = Stored st2 /\
  exists st' w' rest,
    process_urls sample_env
      (["https://x/get-started/Some-Thing/"]
       ++ "https://x/get-started/b-c/" :: ["https://x/get-started/d/"])
      fresh_state (mkWorld Absent ∅ 1 []) = Ret st' w' /\
    process_urls sample_env ["https://x/get-started/d/"] st2
      (world_of (process_urls sample_env
                   ["https://x/get-started/Some-Thing/";
                    "https://x/get-started/b-c/"]
                   fresh_state (mkWorld Absent ∅ 1 []))) = Ret st' w' /\
    trace w'
    = trace (world_of (process_urls sample_env
                   ["https://x/get-started/Some-Thing/";
                    "https://x/get-started/b-c/"]
                   fresh_state (mkWorld Absent ∅ 1 []))) ++ rest /\
    (forall url', url' ∈ ["https://x/get-started/d/"] ->
       get_clean_slug url' ∈ processed_slugs st2 \/
       get_clean_slug url' ∈ invoked rest) /\
    mkFailure (get_clean_slug "https://x/get-started/b-c/")
      "content policy violation" ∈ failed_slugs st'.
Proof.
  intros st1 st2.
  apply (failure_isolation sample_env ["https://x/get-started/Some-Thing/"]
           "https://x/get-started/b-c/" ["https://x/get-started/d/"]
           fresh_state st1 st2 (mkWorld Absent ∅ 1 [])
           (world_of (process_urls sample_env
                        ["https://x/get-started/Some-Thing/"]
                        fresh_state (mkWorld Absent ∅ 1 [])))
           (world_of (process_urls sample_env
                        ["https://x/get-started/Some-Thing/";
                         "https://x/get-started/b-c/"]
                        fresh_state (mkWorld Absent ∅ 1 [])))
           [Log INFO "Processing: b c"; Print "Generating icon for: b c";
            Invoke "b c";
            Log ERROR "Error generating icon for b c: content policy violation";
            Done "b c" false "content policy violation";
            Log ERROR "Failed to generate icon for b c: content policy violation";
            Print "Failed: content policy violation";
            Saved st2; Sleep 2]
           "content policy violation").
  - vm_compute. reflexivity.
  - vm_compute. reflexivity.
  - vm_compute. reflexivity.
  - do 4 apply list_elem_of_further. apply list_elem_of_here.
Defined.

(** ** Idempotent skip *)

Lemma progress_refl (w : World) : progress w w [].
Proof.
  unfold progress. simpl. rewrite !app_nil_r.
  repeat split; first [done | by intros ? ?%elem_of_nil | by apply NoDup_nil_2].
Qed.

Lemma progress_trans (w w1 w2 : World) (seg1 seg2 : list event) :
  progress w w1 seg1 -> progress w1 w2 seg2 -> progress w w2 (seg1 ++ seg2).
Proof.
  intros (Ht1 & Hd1 & Hi1 & Hs1 & Hn1) (Ht2 & Hd2 & Hi2 & Hs2 & Hn2).
  unfold progress. rewrite invoked_app, succeeded_app. repeat split.
  - by rewrite Ht2, Ht1, app_assoc.
  - by rewrite Hd2, Hd1, app_assoc.
  - intros S [HS|HS]%elem_of_app; [by apply Hi1|].
    apply Hi2 in HS. rewrite Hd1 in HS. intros Hin. apply HS.
    apply elem_of_app. by left.
  - intros S [HS|HS]%elem_of_app; apply elem_of_app; [left|right]; auto.
  - apply NoDup_app. repeat split; [done| |done].
    intros S HS1 HS2. apply Hs2, Hi2 in HS2. apply HS2. rewrite Hd1.
    apply elem_of_app. by right.
Qed.

Lemma progress_quiet (w w' : World) (evs : list event) :
  ckpt w' = ckpt w -> trace w' = trace w ++ evs ->
  invoked evs = [] -> succeeded evs = [] ->
  progress w w' evs.
Proof.
  intros Hck Htr Hi Hs. unfold progress, disk_processed.
  rewrite Hck, Hi, Hs, app_nil_r.
  repeat split; first [done | by intros ? ?%elem_of_nil | by apply NoDup_nil_2].
Qed.

Lemma progress_of_accounts (st st' : State) (w w' : World) (seg : list event) :
  accounts st w st' w' seg -> synced st w -> progress w w' seg.
Proof.
  intros (Htr & Hp & _ & Hi & Hs & _ & Hn & Hsy & _) Hsync.
  unfold progress.
  rewrite (synced_disk st w Hsync), (synced_disk st' w' (Hsy Hsync)).
  done.
Qed.

Lemma progress_NoDup (w w' : World) (seg : list event) :
  progress w w' seg -> NoDup (disk_processed w) -> NoDup (disk_processed w').
Proof.
  intros (_ & Hd & Hi & Hs & Hn) Hnd. rewrite Hd.
  apply NoDup_app. repeat split; [done| |done].
  intros S HS1 HS2. by apply Hs, Hi in HS2.
Qed.

(** One run, complete or killed between candidates. *)
Lemma run_progress (r : Env * option nat) (w : World) :
  exists seg, progress w (run r w) seg.
Proof.
  destruct r as [env kill]. unfold run. cbn [fst snd].
  destruct (startup_cases env w)
    as [[e He] | (st0 & urls & w1 & evs & Hs & _ & Hload & _ & Hck & _ & Htr
                  & Hi & Hsu & _)].
  { exists []. destruct kill as [n|]; unfold main, main_killed;
      rewrite (bind_Raise _ _ _ _ _ He); apply progress_refl. }
  assert (Hstart : progress w w1 evs) by (by apply progress_quiet).
  assert (Hsync : synced st0 w1).
  { apply (synced_frame _ w); [done|]. by apply synced_load. }
  destruct kill as [n|].
  - destruct (process_urls_accounts env (take n urls) st0 w1)
      as (st' & w' & seg & Hp & Hacc & _).
    exists (evs ++ seg). unfold main_killed.
    rewrite (bind_Ret _ _ _ _ _ Hs). cbn [fst snd]. rewrite Hp. simpl.
    eapply progress_trans; [done|]. by eapply progress_of_accounts.
  - destruct (process_urls_accounts env urls st0 w1)
      as (st' & w' & seg & Hp & Hacc & _).
    destruct (report_frame st' w') as (w'' & Hr & Hck' & _ & Htr').
    eexists (evs ++ seg ++ _). unfold main.
    rewrite (bind_Ret _ _ _ _ _ Hs). cbn [fst snd].
    rewrite (bind_Ret _ _ _ _ _ Hp), Hr. simpl.
    eapply progress_trans; [done|].
    eapply progress_trans; [by eapply progress_of_accounts|].
    apply progress_quiet; [done | exact Htr' | |].
    + rewrite invoked_app. simpl. apply prints_quiet.
    + rewrite succeeded_app. simpl. apply prints_quiet.
Qed.

Lemma runs_progress (rs : list (Env * option nat)) (w : World) :
  exists seg, progress w (runs rs w) seg.
Proof.
  revert w. induction rs as [|r rs IH]; intros w.
  - exists []. apply progress_refl.
  - destruct (run_progress r w) as [seg1 H1].
    destruct (IH (run r w)) as [seg2 H2].
    exists (seg1 ++ seg2). simpl. by eapply progress_trans.
Qed.

Lemma failures_of_none (S : string) (fails : list failure) :
  (forall f, f ∈ fails -> slug f ≠ S) -> failures_of S fails = [].
Proof.
  unfold failures_of. induction fails as [|f fails IH]; intros H; [done|].
  rewrite filter_cons_False by (apply H; apply list_elem_of_here).
  apply IH. intros g Hg. apply H. by apply list_elem_of_further.
Qed.

(** C1: a candidate whose slug is in [processed_slugs] is skipped: the
    adapter is not entered and state and checkpoint file stay as they are;
    over a whole loop such a slug is never handed to the adapter, stays in
    [processed_slugs] and gets no new entry in [failed_slugs]; and over any
    sequence of runs, complete or killed between candidates, the adapter
    succeeds at most once per slug, never on a slug already in the
    checkpoint, and a duplicate-free processed list stays duplicate-free. *)
Theorem idempotent_skip :
  (forall env url st w,
     get_clean_slug url ∈ processed_slugs st ->
     process_url env url st w
     = Ret st (mkWorld (ckpt w) (icons w) (clock w)
                 (trace w ++ [skip_line (get_clean_slug url)]))) /\
  (forall env urls st w,
     exists st' w' seg,
       process_urls env urls st w = Ret st' w' /\
       trace w' = trace w ++ seg /\
       (NoDup (processed_slugs st) -> NoDup (processed_slugs st')) /\
       forall S, S ∈ processed_slugs st ->
         (S ∉ invoked seg) /\ (S ∉ succeeded seg) /\
         S ∈ processed_slugs st' /\
         failures_of S (failed_slugs st') = failures_of S (failed_slugs st)) /\
  (forall rs w,
     NoDup (disk_processed w) ->
     exists seg,
       trace (runs rs w) = trace w ++ seg /\
       NoDup (succeeded seg) /\
       NoDup (disk_processed (runs rs w)) /\
       disk_processed (runs rs w) = disk_processed w ++ succeeded seg /\
       forall S, S ∈ disk_processed w ->
         (S ∉ invoked seg) /\ (S ∉ succeeded seg)).
Proof.
  split; [exact process_url_skip|]. split.
  - intros env urls st w.
    destruct (process_urls_accounts env urls st w)
      as (st' & w' & seg & Hp & Hacc & _).
    exists st', w', seg. split; [done|].
    pose proof (accounts_NoDup _ _ _ _ _ Hacc) as Hnd.
    destruct Hacc as (Htr & Hpr & Hf & Hi & Hs & Hk & _).
    split; [done|]. split; [done|]. intros S HS.
    assert (Hni : S ∉ invoked seg) by (intros Hin; by apply Hi in Hin).
    split; [done|]. split; [by intros Hin%Hs|]. split.
    + rewrite Hpr. apply elem_of_app. by left.
    + rewrite Hf. unfold failures_of at 1. rewrite filter_app.
      fold (failures_of S (failed_slugs st)) (failures_of S (failures seg)).
      rewrite (failures_of_none S (failures seg)), app_nil_r; [done|].
      intros f Hfin <-. by apply Hk in Hfin.
  - intros rs w Hnd.
    destruct (runs_progress rs w) as [seg Hprog].
    pose proof (progress_NoDup _ _ _ Hprog Hnd) as Hnd'.
    destruct Hprog as (Htr & Hd & Hi & Hs & Hn).
    exists seg. repeat split; try done.
    + intros Hin. by apply Hi in Hin.
    + intros Hin%Hs. by apply Hi in Hin.
Qed.

Lemma idempotent_skip_witness :
  exists seg,
    trace (runs [(sample_env, None); (sample_env, Some 1); (sample_env, None)]
             resumed_world)
    = trace resumed_world ++ seg /\
    NoDup (succeeded seg) /\
    NoDup (disk_processed
             (runs [(sample_env, None); (sample_env, Some 1); (sample_env, None)]
                resumed_world)) /\
    disk_processed
      (runs [(sample_env, None); (sample_env, Some 1); (sample_env, None)]
         resumed_world)
    = disk_processed resumed_world ++ succeeded seg /\
    forall S, S ∈ disk_processed resumed_world ->
      (S ∉ invoked seg) /\ (S ∉ succeeded seg).
Proof.
  apply (proj2 (proj2 idempotent_skip)
           [(sample_env, None); (sample_env, Some 1); (sample_env, None)]
           resumed_world).
  apply NoDup_singleton.
Defined.

(** ** Empty catalog *)

(** C7, as the code has it: when the fetcher returns no candidate the run
    returns after the completion message, without any write to the
    checkpoint file; the summary that follows lists the failures of the
    loaded checkpoint, and is empty exactly when there are none. *)
Theorem empty_catalog (env : Env) (w w1 : World) (st : State) :
  os_makedirs env = None ->
  load_save_state w = Ret st w ->
  fetch_sitemap_urls env w = Ret [] w1 ->
  exists w',
    main env w = Ret tt w' /\
    ckpt w' = ckpt w /\
    trace w' = trace w1 ++
      [Log INFO "Found 0 URLs to process";
       Print "Icon generation completed!";
       Log INFO "Icon generation completed!"]
      ++ (Print <$> summary_lines (failed_slugs st)) /\
    (summary_lines (failed_slugs st) = [] <-> failed_slugs st = []).
Proof.
  intros Hmk Hload Hfetch.
  assert (Hck : ckpt w1 = ckpt w).
  { destruct (fetch_sitemap_urls_frame env w) as (urls & wf & evs & Hf & H & _).
    rewrite Hfetch in Hf. by injection Hf as <- <-. }
  set (w2 := mkWorld (ckpt w1) (icons w1) (clock w1)
               (trace w1 ++ [Log INFO "Found 0 URLs to process"])).
  destruct (report_frame st w2) as (w' & Hr & Hck' & _ & Htr).
  exists w'. split; [|split; [|split]].
  - assert (Hstart : startup env w = Ret (st, []) w2).
    { unfold startup, makedirs. rewrite Hmk.
      erewrite bind_Ret by reflexivity.
      erewrite bind_Ret by exact Hload.
      erewrite bind_Ret by exact Hfetch.
      reflexivity. }
    unfold main. rewrite (bind_Ret _ _ _ _ _ Hstart). cbn [fst snd process_urls].
    erewrite bind_Ret by reflexivity. exact Hr.
  - by rewrite Hck', <- Hck.
  - rewrite Htr. unfold w2. simpl. by rewrite <- app_assoc.
  - by destruct (failed_slugs st).
Qed.

Lemma empty_catalog_witness :
  exists w',
    main offline_env resumed_world = Ret tt w' /\
    ckpt w' = ckpt resumed_world /\
    trace w'
    = trace (mkWorld (Stored resumed_state) ∅ 1
               [Log ERROR "Error fetching sitemap: Connection refused"]) ++
      [Log INFO "Found 0 URLs to process";
       Print "Icon generation completed!";
       Log INFO "Icon generation completed!"]
      ++ (Print <$> summary_lines (failed_slugs resumed_state)) /\
    (summary_lines (failed_slugs resumed_state) = []
     <-> failed_slugs resumed_state = []).
Proof.
  apply (empty_catalog offline_env resumed_world
           (mkWorld (Stored resumed_state) ∅ 1
              [Log ERROR "Error fetching sitemap: Connection refused"])
           resumed_state); reflexivity.
Defined.

(** Against C7 as stated: the fetcher returns no candidate and the summary
    is not empty. *)
Lemma empty_catalog_summary_not_empty :
  fetch_sitemap_urls offline_env resumed_world
  = Ret [] (mkWorld (Stored resumed_state) ∅ 1
              [Log ERROR "Error fetching sitemap: Connection refused"]) /\
  printed (trace (world_of (main offline_env resumed_world)))
  = ["Icon generation completed!";
     String "010" "Failed generations:";
     "- b c: content policy violation"].
Proof. split; vm_compute; reflexivity. Qed.

(** * Further properties of the script *)

(** ** Slugs and icon paths *)

Lemma prefix_nil_l (s : string) : String.prefix EmptyString s = true.
Proof. by destruct s. Qed.

Lemma prefix_split (a s : string) :
  String.prefix a s = true -> exists t, s = a +:+ t.
Proof.
  revert s. induction a as [|c a IH]; intros s H.
  - by exists s.
  - destruct s as [|d s]; [done|]. simpl in H.
    destruct (ascii_dec c d) as [->|]; [|done].
    destruct (IH s H) as [t ->]. by exists t.
Qed.

Lemma str_in_prefix (x s : string) :
  String.prefix x s = true -> PyStr.str_in x s = true.
Proof. intros H. destruct s; simpl in *; by rewrite H. Qed.

Lemma str_in_app_r (x a t : string) :
  PyStr.str_in x t = true -> PyStr.str_in x (a +:+ t) = true.
Proof.
  intros H. induction a as [|c a IH]; [done|].
  rewrite append_cons. cbn [PyStr.str_in]. rewrite IH. apply orb_true_r.
Qed.

(** On a one-character pattern, [in] distributes over concatenation. *)
Lemma str_in_char_app (c : ascii) (a b : string) :
  PyStr.str_in (String c EmptyString) (a +:+ b)
  = PyStr.str_in (String c EmptyString) a || PyStr.str_in (String c EmptyString) b.
Proof.
  induction a as [|x a IH].
  - rewrite append_nil_l. simpl. by destruct (PyStr.str_in _ b).
  - rewrite append_cons. cbn [PyStr.str_in String.prefix]. rewrite IH.
    rewrite !prefix_nil_l. by rewrite orb_assoc.
Qed.

(** The marker contains a hyphen, so a string without hyphen has no marker. *)
Lemma no_hyphen_no_marker (s : string) :
  PyStr.str_in "-" s = false -> PyStr.str_in REQUIRED_PATH s = false.
Proof.
  induction s as [|c s IH]; [done|].
  intros H. cbn [PyStr.str_in] in *.
  apply orb_false_iff in H as [_ Hs]. rewrite (IH Hs), orb_false_r.
  destruct (String.prefix REQUIRED_PATH (String c s)) eqn:E; [|done].
  apply prefix_split in E as [t E]. exfalso.
  change (REQUIRED_PATH +:+ t)
    with (String "/" ("get" +:+ "-" +:+ "started/" +:+ t)) in E.
  injection E as -> ->.
  rewrite str_in_app_r in Hs; [done|].
  apply str_in_prefix, prefix_append.
Qed.

Lemma subst_char_absent (a b : ascii) (s : string) :
  PyStr.str_in (String a EmptyString) s = false -> PyStr.subst_char a b s = s.
Proof.
  induction s as [|c s IH]; [done|]. cbn [PyStr.str_in PyStr.subst_char].
  intros [Hp Hs]%orb_false_iff. rewrite (IH Hs). simpl in Hp.
  rewrite prefix_nil_l in Hp.
  destruct (Ascii.eqb_spec c a) as [->|]; [|done].
  by destruct (ascii_dec a a).
Qed.

Lemma slug_stripped (url : string) :
  PyStr.strip "/" (get_clean_slug url) = get_clean_slug url.
Proof.
  rewrite get_clean_slug_unfold.
  rewrite <- strip_subst_char by reflexivity. by rewrite strip_idem.
Qed.

Lemma slug_no_hyphen (url : string) :
  PyStr.str_in "-" (get_clean_slug url) = false.
Proof. rewrite get_clean_slug_unfold. by apply str_in_subst_char. Qed.

(** X1: deriving a slug from a slug changes nothing: a slug contains no
    hyphen, hence no marker, and is already stripped of "/". *)
Theorem get_clean_slug_idempotent (url : string) :
  get_clean_slug (get_clean_slug url) = get_clean_slug url.
Proof.
  pose proof (slug_no_hyphen url) as Hh.
  rewrite (get_clean_slug_unfold (get_clean_slug url)). unfold PyStr.split.
  rewrite (split_go_no_match _ _ (no_hyphen_no_marker _ Hh)).
  change (PyStr.last_piece [get_clean_slug url]) with (get_clean_slug url).
  rewrite slug_stripped. by apply subst_char_absent.
Qed.

Lemma lstrip_length (chars s : string) :
  String.length (PyStr.lstrip chars s) <= String.length s.
Proof.
  induction s as [|c s IH]; simpl; [done|].
  destruct (PyStr.char_in c chars); simpl; lia.
Qed.

Lemma rstrip_length (chars s : string) :
  String.length (PyStr.rstrip chars s) <= String.length s.
Proof.
  induction s as [|c s IH]; simpl; [done|].
  destruct (PyStr.rstrip chars s); [|simpl in *; lia].
  destruct (PyStr.char_in c chars); simpl; lia.
Qed.

(** A stripped string does not start with a stripped character. *)
Lemma stripped_head (chars : string) (c : ascii) (s : string) :
  PyStr.strip chars (String c s) = String c s -> PyStr.char_in c chars = false.
Proof.
  unfold PyStr.strip. cbn [PyStr.lstrip].
  destruct (PyStr.char_in c chars); [|done]. intros H.
  pose proof (rstrip_length chars (PyStr.lstrip chars s)) as H1.
  pose proof (lstrip_length chars s) as H2.
  rewrite H in H1. simpl in H1. lia.
Qed.

(** X2: the icon of a slug derived from an identifier lies in the output
    directory, under the slug with spaces turned into underscores followed by
    "_icon.png"; the path contains no space. *)
Theorem icon_path_of_slug (url : string) :
  icon_path (get_clean_slug url)
  = OUTPUT_DIR +:+ "/" +:+
    PyStr.subst_char " " "_" (get_clean_slug url) +:+ "_icon.png" /\
  PyStr.str_in " " (icon_path (get_clean_slug url)) = false.
Proof.
  assert (Hp : icon_path (get_clean_slug url)
               = OUTPUT_DIR +:+ "/" +:+
                 PyStr.subst_char " " "_" (get_clean_slug url) +:+ "_icon.png").
  { unfold icon_path, path_join. rewrite replace_one_char.
    pose proof (slug_stripped url) as Hs.
    destruct (get_clean_slug url) as [|c s]; [reflexivity|].
    apply stripped_head in Hs. cbn [PyStr.subst_char].
    rewrite append_cons. cbn [String.prefix].
    destruct (ascii_dec "/" (if Ascii.eqb c " " then "_"%char else c)) as [E|_];
      [|reflexivity].
    exfalso. destruct (Ascii.eqb_spec c " ") as [->|]; [done|].
    subst c. simpl in Hs. done. }
  split; [exact Hp|]. rewrite Hp.
  rewrite !str_in_char_app, str_in_subst_char by done. reflexivity.
Qed.

Lemma subst_char_idem (a b : ascii) (s : string) :
  a ≠ b -> PyStr.subst_char a b (PyStr.subst_char a b s) = PyStr.subst_char a b s.
Proof.
  intros Hab. apply subst_char_absent. by apply str_in_subst_char.
Qed.

Lemma prefix_subst_char (x a b : ascii) (s t : string) :
  x ≠ a -> x ≠ b ->
  String.prefix (String x EmptyString) (PyStr.subst_char a b s +:+ t)
  = String.prefix (String x EmptyString) (s +:+ t).
Proof.
  intros Ha Hb. destruct s as [|c s]; [done|].
  cbn [PyStr.subst_char]. rewrite !append_cons. cbn [String.prefix].
  rewrite !prefix_nil_l.
  destruct (Ascii.eqb_spec c a) as [->|]; [|done].
  destruct (ascii_dec x b), (ascii_dec x a); congruence.
Qed.

(** X3: turning the spaces of a slug into underscores does not change its
    icon path, so two slugs that differ only in spaces against underscores
    share one file. *)
Theorem icon_path_space_underscore (s : string) :
  icon_path (PyStr.replace " " "_" s) = icon_path s.
Proof.
  unfold icon_path, path_join. rewrite !replace_one_char.
  rewrite subst_char_idem by done. reflexivity.
Qed.

(** ** The fetcher, whatever the sitemap *)

Lemma is_candidate_true (u : string) :
  is_candidate u = true <->
  PyStr.str_in REQUIRED_PATH u = true /\
  forall lang, lang ∈ EXCLUDED_LANGS -> PyStr.str_in lang u = false.
Proof.
  unfold is_candidate. rewrite andb_true_iff, List.forallb_forall.
  split; intros [H1 H2]; (split; [done|]); intros lang Hin.
  - apply list_elem_of_In, H2 in Hin. by apply negb_true_iff.
  - apply negb_true_iff, H2. by apply list_elem_of_In.
Qed.

(** The loop only ever adds entries that pass the test of line 71. *)
Lemma collect_urls_sound (locs : list (option string)) (acc urls : list string) :
  collect_urls locs acc = Ok urls ->
  exists found,
    urls = acc ++ found /\
    Forall (fun u => is_candidate u = true) found /\
    sublist (Some <$> found) locs.
Proof.
  revert acc. induction locs as [|t locs IH]; intros acc H.
  - injection H as <-. exists []. rewrite app_nil_r. by repeat split.
  - cbn [collect_urls] in H. destruct t as [u|]; [|done].
    rewrite wanted_text in H. destruct (is_candidate u) eqn:E.
    + destruct (IH _ H) as (found & -> & Hall & Hsub).
      exists (u :: found). rewrite <- app_assoc. repeat split; [by constructor|].
      by apply sublist_skip.
    + destruct (IH _ H) as (found & -> & Hall & Hsub).
      exists found. repeat split; [done|]. by apply sublist_cons.
Qed.

(** The two ways a call of the fetcher ends. *)
Lemma fetch_sitemap_urls_outcome (env : Env) (w : World) :
  (exists resp locs urls,
     requests_get env (clock w) SITEMAP_URL = Ok resp /\
     ET_locs env (content resp) = Ok locs /\
     collect_urls locs [] = Ok urls /\
     fetch_sitemap_urls env w = Ret urls (tick w)) \/
  (exists e,
     fetch_sitemap_urls env w
     = Ret [] (mkWorld (ckpt w) (icons w) (S (clock w))
                 (trace w ++
                  [Log ERROR ("Error fetching sitemap: " +:+ exn_str e)]))).
Proof.
  assert (Hunfold : forall r,
    (match requests_get env (clock w) SITEMAP_URL with
     | Ok resp =>
         match raise_for_status resp (tick w) with
         | Ret _ w1 =>
             match ET_locs env (content resp) with
             | Ok locs =>
                 match collect_urls locs [] with
                 | Ok urls => Ret urls w1
                 | Fail e => Raise e w1
                 end
             | Fail e => Raise e w1
             end
         | Raise e w1 => Raise e w1
         end
     | Fail e => Raise e (tick w)
     end) = r ->
    fetch_sitemap_urls env w =
    match r with
    | Ret urls w1 => Ret urls w1
    | Raise e w1 =>
        Ret [] (mkWorld (ckpt w1) (icons w1) (clock w1)
                  (trace w1 ++
                   [Log ERROR ("Error fetching sitemap: " +:+ exn_str e)]))
    end).
  { intros r <-. unfold fetch_sitemap_urls. rewrite try_except_Exception.
    unfold mbind, M_bind, call, lift, mret, M_ret, raise.
    destruct (requests_get env (clock w) SITEMAP_URL) as [resp|e]; [|done].
    destruct (raise_for_status resp (tick w)) as [[] w1|e w1]; [|done].
    destruct (ET_locs env (content resp)) as [locs|e]; [|done].
    by destruct (collect_urls locs []). }
  destruct (requests_get env (clock w) SITEMAP_URL) as [resp|e] eqn:Hget.
  2:{ right. exists e. by rewrite (Hunfold _ eq_refl). }
  destruct (decide (400 <= status_code resp < 600)) as [Hst|Hst].
  { destruct (raise_for_status_error resp (tick w) Hst) as [msg Hr].
    right. eexists. rewrite Hr in Hunfold. by rewrite (Hunfold _ eq_refl). }
  rewrite (raise_for_status_ok resp (tick w) Hst) in Hunfold.
  destruct (ET_locs env (content resp)) as [locs|e] eqn:Hlocs.
  2:{ right. exists e. by rewrite (Hunfold _ eq_refl). }
  destruct (collect_urls locs []) as [urls|e] eqn:Hcol.
  2:{ right. exists e. by rewrite (Hunfold _ eq_refl). }
  left. exists resp, locs, urls. by rewrite (Hunfold _ eq_refl).
Qed.

(** X4: whatever the server answers, every identifier the fetcher returns
    contains the required marker and none of the excluded language markers,
    and the identifiers are texts of [loc] elements in the order of the
    sitemap. *)
Theorem fetch_sitemap_urls_sound (env : Env) (w : World) :
  exists urls w',
    fetch_sitemap_urls env w = Ret urls w' /\
    (forall u, u ∈ urls ->
       PyStr.str_in REQUIRED_PATH u = true /\
       forall lang, lang ∈ EXCLUDED_LANGS -> PyStr.str_in lang u = false) /\
    (urls = [] \/
     exists resp locs,
       requests_get env (clock w) SITEMAP_URL = Ok resp /\
       ET_locs env (content resp) = Ok locs /\
       sublist (Some <$> urls) locs).
Proof.
  destruct (fetch_sitemap_urls_outcome env w)
    as [(resp & locs & urls & Hget & Hlocs & Hcol & Hf) | (e & Hf)].
  - exists urls, (tick w). split; [done|].
    destruct (collect_urls_sound _ _ _ Hcol) as (found & -> & Hall & Hsub).
    rewrite app_nil_l. split.
    + intros u Hu. apply is_candidate_true.
      by apply (proj1 (Forall_forall _ _) Hall).
    + right. by exists resp, locs.
  - do 2 eexists. split; [exact Hf|]. split; [|by left].
    intros u Hu. by apply elem_of_nil in Hu.
Qed.

(** X5: a call of the fetcher makes one request, leaves the checkpoint file
    and the icons alone, and writes nothing but, when it fails, one error
    line to the log, in which case it returns no candidate. *)
Theorem fetch_sitemap_urls_effects (env : Env) (w : World) :
  exists urls w',
    fetch_sitemap_urls env w = Ret urls w' /\
    ckpt w' = ckpt w /\ icons w' = icons w /\ clock w' = S (clock w) /\
    (trace w' = trace w \/
     (urls = [] /\
      exists e, trace w' = trace w ++
        [Log ERROR ("Error fetching sitemap: " +:+ exn_str e)])).
Proof.
  destruct (fetch_sitemap_urls_outcome env w)
    as [(resp & locs & urls & _ & _ & _ & Hf) | (e & Hf)].
  - exists urls, (tick w). split; [done|]. repeat split. by left.
  - do 2 eexists. split; [exact Hf|]. repeat split. right.
    split; [done|]. by exists e.
Qed.

(** ** What a successful adapter call writes *)

Lemma generate_icon_success (env : Env) (slug : string) (w : World)
    (url : string) (resp : response) (img : image) (px : string) :
  Image_create env (clock w) (prompt_for slug) = Ok url ->
  requests_get env (S (clock w)) url = Ok resp ->
  Image_open env (content resp) = Ok img ->
  Image_lanczos env img 256 256 = Ok px ->
  Image_save env (S (S (clock w))) (icon_path slug) = None ->
  generate_icon env slug w
  = Ret (true, icon_path slug)
      (mkWorld (ckpt w) (<[icon_path slug := mkImage 256 256 px]> (icons w))
         (S (S (S (clock w))))
         (trace w ++ [Invoke slug; Done slug true (icon_path slug)])).
Proof.
  intros E1 E2 E3 E4 E5. unfold generate_icon.
  unfold mbind at 1, M_bind at 1. cbn [emit].
  rewrite try_except_Exception. unfold_monad.
  rewrite E1; simpl; rewrite E2; simpl; rewrite E3; simpl.
  unfold resize; rewrite E4; simpl. unfold image_save; simpl. rewrite E5.
  simpl. by rewrite <- !app_assoc.
Qed.

(** X6: when the adapter returns [True], the path it returns is the icon
    path of the slug, the file at that path now holds a 256 by 256 image
    whatever the size of the downloaded one, every other file is as before,
    and the checkpoint file is untouched. *)
Theorem generate_icon_writes_icon (env : Env) (slug : string) (w w' : World)
    (path : string) :
  generate_icon env slug w = Ret (true, path) w' ->
  path = icon_path slug /\
  ckpt w' = ckpt w /\
  (exists img, icons w' !! path = Some img /\ width img = 256 /\ height img = 256) /\
  (forall other, other ≠ path -> icons w' !! other = icons w !! other).
Proof.
  intros Hg.
  destruct (generate_icon_cases env slug w)
    as [[Hs _] | (e & _ & w2 & Hg2 & _)]; [|congruence].
  destruct Hs as (url & resp & img & px & E1 & E2 & E3 & E4 & E5).
  rewrite (generate_icon_success env slug w url resp img px E1 E2 E3 E4 E5) in Hg.
  injection Hg as <- <-. simpl. repeat split.
  - exists (mkImage 256 256 px). by rewrite lookup_insert_eq.
  - intros other Hne. by rewrite lookup_insert_ne.
Qed.

Lemma generate_icon_writes_icon_witness :
  let w' := world_of (generate_icon sample_env "Some Thing" empty_world) in
  "generated_icons/Some_Thing_icon.png" = icon_path "Some Thing" /\
  ckpt w' = ckpt empty_world /\
  (exists img, icons w' !! "generated_icons/Some_Thing_icon.png" = Some img /\
     width img = 256 /\ height img = 256) /\
  (forall other, other ≠ "generated_icons/Some_Thing_icon.png" ->
     icons w' !! other = icons empty_world !! other).
Proof.
  intros w'.
  apply (generate_icon_writes_icon sample_env "Some Thing" empty_world w'
           "generated_icons/Some_Thing_icon.png").
  vm_compute. reflexivity.
Defined.

(** ** When a run returns *)





(** ** The loop, candidate by candidate *)

(** What the observations of an attempted candidate are, whatever the
    adapter returns. *)
Lemma process_url_attempt_shape (env : Env) (url : string) (st : State)
    (w : World) :
  get_clean_slug url ∉ processed_slugs st ->
  exists st1 w1 seg1,
    process_url env url st w = Ret st1 w1 /\
    trace w1 = trace w ++ seg1 /\
    ckpt w1 = Stored st1 /\
    invoked seg1 = [get_clean_slug url] /\
    saves seg1 = [st1] /\
    (get_clean_slug url ∈ succeeded seg1 \/
     get_clean_slug url ∈ slug <$> failures seg1).
Proof.
  intros Hnot.
  destruct (process_url_attempt env url st w Hnot)
    as [[_ (w' & Hp & Hck & Htr)] | (e & _ & w' & Hp & Hck & Htr)].
  - do 3 eexists. split; [exact Hp|]. split; [exact Htr|].
    split; [exact Hck|]. split; [reflexivity|]. split; [reflexivity|].
    left. simpl. apply list_elem_of_here.
  - do 3 eexists. split; [exact Hp|]. split; [exact Htr|].
    split; [exact Hck|]. split; [reflexivity|]. split; [reflexivity|].
    right. simpl. apply list_elem_of_here.
Qed.

(** The ledger of a loop: which candidates reached the adapter, how often the
    checkpoint was written and what it holds at the end. *)
Lemma process_urls_ledger (env : Env) (urls : list string) (st : State)
    (w : World) :
  exists st' w' seg,
    process_urls env urls st w = Ret st' w' /\
    trace w' = trace w ++ seg /\
    sublist (invoked seg) (get_clean_slug <$> urls) /\
    length (saves seg) = length (invoked seg) /\
    (invoked seg = [] ->
       st' = st /\ ckpt w' = ckpt w /\
       seg = (fun url => skip_line (get_clean_slug url)) <$> urls) /\
    (invoked seg ≠ [] -> ckpt w' = Stored st' /\ last (saves seg) = Some st') /\
    (forall S, S ∈ invoked seg ->
       S ∈ succeeded seg \/ S ∈ slug <$> failures seg).
Proof.
  revert st w. induction urls as [|url urls IH]; intros st w.
  - exists st, w, []. simpl. rewrite app_nil_r.
    repeat split; first [done | by intros ? ?%elem_of_nil].
  - destruct (decide (get_clean_slug url ∈ processed_slugs st)) as [Hin|Hnot].
    + pose proof (process_url_skip env url st w Hin) as Hp.
      destruct (IH st (mkWorld (ckpt w) (icons w) (clock w)
                         (trace w ++ [skip_line (get_clean_slug url)])))
        as (st' & w' & seg & Hl & Htr & Hsub & Hlen & Hnil & Hcons & Hdone).
      exists st', w', (skip_line (get_clean_slug url) :: seg).
      change (invoked (skip_line (get_clean_slug url) :: seg)) with (invoked seg).
      change (saves (skip_line (get_clean_slug url) :: seg)) with (saves seg).
      change (succeeded (skip_line (get_clean_slug url) :: seg))
        with (succeeded seg).
      change (failures (skip_line (get_clean_slug url) :: seg))
        with (failures seg).
      split; [simpl; by rewrite (bind_Ret _ _ _ _ _ Hp)|].
      split; [rewrite Htr; simpl; by rewrite <- app_assoc|].
      split; [rewrite fmap_cons; by apply sublist_cons|].
      split; [done|]. split; [|by split].
      intros Hi. destruct (Hnil Hi) as (-> & Hck & ->). by repeat split.
    + destruct (process_url_attempt_shape env url st w Hnot)
        as (st1 & w1 & seg1 & Hp & Htr1 & Hck1 & Hi1 & Hs1 & Hd1).
      destruct (IH st1 w1)
        as (st' & w' & seg & Hl & Htr & Hsub & Hlen & Hnil & Hcons & Hdone).
      exists st', w', (seg1 ++ seg).
      rewrite invoked_app, saves_app, succeeded_app, failures_app, Hi1, Hs1.
      split; [simpl; by rewrite (bind_Ret _ _ _ _ _ Hp)|].
      split; [by rewrite Htr, Htr1, app_assoc|].
      split; [rewrite fmap_cons; by apply sublist_skip|].
      split; [simpl; by rewrite Hlen|].
      split; [done|]. split.
      * intros _. destruct (invoked seg) as [|S l] eqn:Hi.
        -- destruct (Hnil eq_refl) as (-> & Hck & _).
           split; [by rewrite Hck|].
           destruct (saves seg); [done|discriminate Hlen].
        -- destruct Hcons as [Hck Hlast]; [done|]. split; [done|].
           simpl. destruct (saves seg) as [|s0 l0]; [done|].
           by rewrite last_cons_cons.
      * intros S [->|HS]%elem_of_cons; rewrite fmap_app, !elem_of_app.
        -- destruct Hd1; [left|right]; by left.
        -- destruct (Hdone S HS); [left|right]; by right.
Qed.

(** Both books of a loop, for the same stretch of the trace. *)
Lemma process_urls_books (env : Env) (urls : list string) (st : State)
    (w : World) :
  exists st' w' seg,
    process_urls env urls st w = Ret st' w' /\
    accounts st w st' w' seg /\
    (forall url, url ∈ urls ->
       get_clean_slug url ∈ processed_slugs st \/
       get_clean_slug url ∈ invoked seg) /\
    sublist (invoked seg) (get_clean_slug <$> urls) /\
    length (saves seg) = length (invoked seg) /\
    (invoked seg = [] -> st' = st /\ ckpt w' = ckpt w) /\
    (invoked seg ≠ [] -> ckpt w' = Stored st' /\ last (saves seg) = Some st') /\
    (forall S, S ∈ invoked seg ->
       S ∈ succeeded seg \/ S ∈ slug <$> failures seg).
Proof.
  destruct (process_urls_accounts env urls st w)
    as (st' & w' & seg & Hp & Hacc & Hcov).
  destruct (process_urls_ledger env urls st w)
    as (st2 & w2 & seg2 & Hp2 & Htr2 & Hsub & Hlen & Hnil & Hcons & Hdone).
  rewrite Hp in Hp2. injection Hp2 as <- <-.
  assert (seg2 = seg) as ->.
  { destruct Hacc as (Htr & _). rewrite Htr in Htr2.
    by apply app_inv_head in Htr2. }
  exists st', w', seg.
  split; [done|]. split; [done|]. split; [done|]. split; [done|].
  split; [done|]. split; [|by split].
  intros Hi. destruct (Hnil Hi) as (? & ? & _). done.
Qed.

(** X8: in a loop the adapter is entered on a subsequence of the candidates'
    slugs, in the order of the catalog: at most once per candidate, never out
    of order, never on a slug that is not a candidate's. *)
Theorem adapter_calls_in_catalog_order (env : Env) (urls : list string)
    (st : State) (w : World) :
  exists st' w' seg,
    process_urls env urls st w = Ret st' w' /\
    trace w' = trace w ++ seg /\
    sublist (invoked seg) (get_clean_slug <$> urls) /\
    length (invoked seg) <= length urls.
Proof.
  destruct (process_urls_books env urls st w)
    as (st' & w' & seg & Hp & Hacc & _ & Hsub & _).
  exists st', w', seg. destruct Hacc as (Htr & _).
  repeat split; try done.
  apply sublist_length in Hsub. by rewrite length_fmap in Hsub.
Qed.

(** X9: a loop sleeps two seconds once per adapter call and writes the
    checkpoint once per adapter call, not more and not less. *)
Theorem one_write_and_one_delay_per_call (env : Env) (urls : list string)
    (st : State) (w : World) :
  exists st' w' seg,
    process_urls env urls st w = Ret st' w' /\
    trace w' = trace w ++ seg /\
    sleeps seg = replicate (length (invoked seg)) 2 /\
    length (saves seg) = length (invoked seg).
Proof.
  destruct (process_urls_books env urls st w)
    as (st' & w' & seg & Hp & Hacc & _ & _ & Hlen & _).
  exists st', w', seg.
  destruct Hacc as (Htr & _ & _ & _ & _ & _ & _ & _ & _ & Hz).
  by repeat split.
Qed.

(** X10: when a loop has entered the adapter at least once, the checkpoint
    file holds exactly the state the loop returns, and that state is the last
    one written; when it has not, the state is the one it started with and
    the file is as it was. *)
Theorem final_checkpoint_is_final_state (env : Env) (urls : list string)
    (st : State) (w : World) :
  exists st' w' seg,
    process_urls env urls st w = Ret st' w' /\
    trace w' = trace w ++ seg /\
    (invoked seg ≠ [] -> ckpt w' = Stored st' /\ last (saves seg) = Some st') /\
    (invoked seg = [] -> st' = st /\ ckpt w' = ckpt w).
Proof.
  destruct (process_urls_books env urls st w)
    as (st' & w' & seg & Hp & Hacc & _ & _ & _ & Hnil & Hcons & _).
  exists st', w', seg. destruct Hacc as (Htr & _).
  split; [done|]. split; [done|]. split; [exact Hcons | exact Hnil].
Qed.

(** X11: after a loop every candidate is accounted for: its slug is in
    [processed_slugs] or has an entry in [failed_slugs]. *)
Theorem every_candidate_accounted_for (env : Env) (urls : list string)
    (st : State) (w : World) :
  exists st' w',
    process_urls env urls st w = Ret st' w' /\
    forall url, url ∈ urls ->
      get_clean_slug url ∈ processed_slugs st' \/
      get_clean_slug url ∈ slug <$> failed_slugs st'.
Proof.
  destruct (process_urls_books env urls st w)
    as (st' & w' & seg & Hp & Hacc & Hcov & _ & _ & _ & _ & Hdone).
  exists st', w'. split; [done|]. intros url Hin.
  destruct Hacc as (_ & Hpr & Hf & _). rewrite Hpr, Hf, fmap_app, !elem_of_app.
  destruct (Hcov url Hin) as [?|Hi]; [by left; left|].
  destruct (Hdone _ Hi); [left|right]; by right.
Qed.

(** X12: a loop only appends to the two lists of the state: what was in
    [processed_slugs] and [failed_slugs] before is still there, in the same
    order, at the front; in particular a recorded failure is never removed,
    even when the slug is later processed. *)
Theorem state_lists_append_only (env : Env) (urls : list string)
    (st : State) (w : World) :
  exists st' w',
    process_urls env urls st w = Ret st' w' /\
    processed_slugs st `prefix_of` processed_slugs st' /\
    failed_slugs st `prefix_of` failed_slugs st'.
Proof.
  destruct (process_urls_books env urls st w)
    as (st' & w' & seg & Hp & Hacc & _).
  exists st', w'. destruct Hacc as (_ & Hpr & Hf & _).
  split; [done|]. split; [by exists (succeeded seg) | by exists (failures seg)].
Qed.

(** X13: a loop over candidates whose slugs are all processed already does
    nothing but log one skip line per candidate, in order: same state, no
    adapter call, no checkpoint write, no delay, no request. *)
Theorem all_processed_all_skipped (env : Env) (urls : list string)
    (st : State) (w : World) :
  (forall url, url ∈ urls -> get_clean_slug url ∈ processed_slugs st) ->
  process_urls env urls st w
  = Ret st (mkWorld (ckpt w) (icons w) (clock w)
              (trace w ++
               ((fun url => skip_line (get_clean_slug url)) <$> urls))).
Proof.
  revert w. induction urls as [|url urls IH]; intros w Hall.
  - simpl. rewrite app_nil_r. by destruct w.
  - cbn [process_urls].
    rewrite (bind_Ret _ _ _ _ _
               (process_url_skip env url st w (Hall url (list_elem_of_here _ _)))).
    rewrite IH by (intros u Hu; apply Hall; by apply list_elem_of_further).
    simpl. by rewrite <- app_assoc.
Qed.

Lemma all_processed_all_skipped_witness :
  process_urls sample_env
    ["https://x/get-started/Some-Thing/"; "https://y/get-started/Some-Thing"]
    resumed_state resumed_world
  = Ret resumed_state
      (mkWorld (Stored resumed_state) ∅ 0
         [skip_line "Some Thing"; skip_line "Some Thing"]).
Proof.
  apply (all_processed_all_skipped sample_env
           ["https://x/get-started/Some-Thing/"; "https://y/get-started/Some-Thing"]
           resumed_state resumed_world).
  intros url [->|[->|H%elem_of_nil]%elem_of_cons]%elem_of_cons;
    [vm_compute; apply list_elem_of_here .. | done].
Defined.

(** X14: only [processed_slugs] makes the loop skip: a candidate whose slug
    is not in it when the loop starts reaches the adapter, whether or not
    [failed_slugs] already lists the slug; so failures of earlier runs are
    tried again. *)
Theorem failed_slugs_are_retried (env : Env) (urls : list string)
    (st : State) (w : World) :
  exists st' w' seg,
    process_urls env urls st w = Ret st' w' /\
    trace w' = trace w ++ seg /\
    forall url, url ∈ urls ->
      get_clean_slug url ∉ processed_slugs st ->
      get_clean_slug url ∈ invoked seg.
Proof.
  destruct (process_urls_books env urls st w)
    as (st' & w' & seg & Hp & Hacc & Hcov & _).
  exists st', w', seg. destruct Hacc as (Htr & _).
  split; [done|]. split; [done|]. intros url Hin Hnot.
  by destruct (Hcov url Hin).
Qed.

(** ** Whole runs *)

Lemma fetch_sitemap_urls_candidates (env : Env) (w w' : World)
    (urls : list string) :
  fetch_sitemap_urls env w = Ret urls w' ->
  forall u, u ∈ urls -> is_candidate u = true.
Proof.
  intros Hf u Hu.
  destruct (fetch_sitemap_urls_outcome env w)
    as [(resp & locs & urls' & _ & _ & Hcol & Hf') | (e & Hf')];
    rewrite Hf in Hf'; injection Hf' as -> _.
  - destruct (collect_urls_sound _ _ _ Hcol) as (found & -> & Hall & _).
    rewrite app_nil_l in Hu. by apply (proj1 (Forall_forall _ _) Hall).
  - by apply elem_of_nil in Hu.
Qed.

(** X15: the summary at the end of a complete run lists, after the
    completion message, every failure of the loaded checkpoint followed by
    every failure of this run, in order, one line each under the heading,
    and nothing when there is none. *)
Theorem main_summary (env : Env) (w w1 : World) (st : State)
    (urls : list string) :
  startup env w = Ret (st, urls) w1 ->
  exists w' seg,
    main env w = Ret tt w' /\
    trace w' = trace w1 ++ seg ++
      [Print "Icon generation completed!"; Log INFO "Icon generation completed!"]
      ++ (Print <$> summary_lines (failed_slugs st ++ failures seg)).
Proof.
  intros Hs.
  destruct (process_urls_accounts env urls st w1)
    as (st' & w' & seg & Hp & Hacc & _).
  destruct (report_frame st' w') as (w'' & Hr & _ & _ & Htr').
  exists w'', seg. split.
  - unfold main. rewrite (bind_Ret _ _ _ _ _ Hs). cbn [fst snd].
    by rewrite (bind_Ret _ _ _ _ _ Hp).
  - destruct Hacc as (Htr & _ & Hf & _).
    by rewrite Htr', Htr, Hf, <- !app_assoc.
Qed.

Lemma main_summary_witness :
  exists w' seg,
    main sample_env empty_world = Ret tt w' /\
    trace w'
    = trace (mkWorld Absent ∅ 1 [Log INFO "Found 2 URLs to process"]) ++ seg ++
      [Print "Icon generation completed!"; Log INFO "Icon generation completed!"]
      ++ (Print <$> summary_lines (failed_slugs fresh_state ++ failures seg)).
Proof.
  apply (main_summary sample_env empty_world
           (mkWorld Absent ∅ 1 [Log INFO "Found 2 URLs to process"]) fresh_state
           ["https://x/get-started/Some-Thing/"; "https://x/get-started/b-c/"]).
  vm_compute. reflexivity.
Defined.

(** X16: whatever happens in a run, every slug on which it enters the
    adapter is the slug of an identifier that contains the required marker
    and none of the excluded language markers. *)
Theorem main_invokes_only_candidates (env : Env) (w : World) :
  exists seg,
    trace (world_of (main env w)) = trace w ++ seg /\
    forall S, S ∈ invoked seg ->
      exists url,
        S = get_clean_slug url /\
        PyStr.str_in REQUIRED_PATH url = true /\
        forall lang, lang ∈ EXCLUDED_LANGS -> PyStr.str_in lang url = false.
Proof.
  destruct (startup_cases env w)
    as [[e He] | (st & urls & w1 & evs & Hs & _ & _ & [wf Hf] & _ & _ & Htr1
                  & Hi1 & _)].
  { exists []. unfold main. rewrite (bind_Raise _ _ _ _ _ He). simpl.
    rewrite app_nil_r. split; [done|]. by intros S ?%elem_of_nil. }
  destruct (process_urls_books env urls st w1)
    as (st' & w' & seg & Hp & Hacc & _ & Hsub & _).
  destruct (report_frame st' w') as (w'' & Hr & _ & _ & Htr').
  eexists (evs ++ seg ++ _). split.
  - unfold main. rewrite (bind_Ret _ _ _ _ _ Hs). cbn [fst snd].
    rewrite (bind_Ret _ _ _ _ _ Hp), Hr. simpl.
    destruct Hacc as (Htr & _). by rewrite Htr', Htr, Htr1, <- !app_assoc.
  - intros S. rewrite !invoked_app, Hi1. simpl.
    rewrite (proj1 (prints_quiet _)), app_nil_r. intros HS.
    apply (fun H => elem_of_sublist _ _ _ H Hsub) in HS.
    apply list_elem_of_fmap in HS as (url & -> & Hurl).
    exists url. split; [done|].
    apply is_candidate_true. by apply (fetch_sitemap_urls_candidates env w wf urls).
Qed.
